(** * Knowledge-graph builder and graph view: a shallow embedding

    The development follows three source files of the repository:
    - the graph service ([graphService.buildGlobalGraph]), which folds a
      list of [ResearchDocument]s into a [KnowledgeGraphData];
    - the [KnowledgeGraph] view, of which the pure parts are embedded:
      [getColor], [getRadius], [handleHighlight], the two click handlers
      and the three drag handlers;
    - the graph explorer of the chat widget, which calls the two: the
      filters it applies to the built graph and the button that opens the
      paper of a node.

    The file has three parts: the program, the vocabulary in which its
    properties are stated, and the lemmas and theorems.

    Conventions.  JavaScript strings are [string]s of 7-bit characters
    (on such text [trim], [toLowerCase] and [toUpperCase] below agree with
    the ECMAScript methods; no general result depends on what they
    compute).  Node weights ([val]) are integers, as the builder only ever
    produces 10, 5, 6, 3 plus a number of increments.  Positions and
    opacities are rationals; the code only copies them.  A property that
    may be [undefined] is an [option].  The [Map] of the builder keeps its
    insertion order, which is the order of the returned node array.  The
    builder runs in a state-and-exception monad over its two captured
    locals; a closure that cannot throw is a function on that state. *)

From Stdlib Require Import ZArith QArith String Ascii Permutation Lia.
From stdpp Require Import base tactics option list strings gmap.

Local Open Scope Z_scope.

(** ** Strings *)

Module JSString.

Definition isWhiteSpace (c : ascii) : bool :=
  let n := nat_of_ascii c in
  ((9 <=? n)%nat && (n <=? 13)%nat) || (n =? 32)%nat.

Fixpoint trimStart (s : string) : string :=
  match s with
  | EmptyString => EmptyString
  | String c s' => if isWhiteSpace c then trimStart s' else s
  end.

Fixpoint trimEnd (s : string) : string :=
  match s with
  | EmptyString => EmptyString
  | String c s' =>
      match trimEnd s' with
      | EmptyString => if isWhiteSpace c then EmptyString else String c EmptyString
      | r => String c r
      end
  end.

(** [s.trim()] *)
Definition trim (s : string) : string := trimEnd (trimStart s).

Definition lowerChar (c : ascii) : ascii :=
  let n := nat_of_ascii c in
  if ((65 <=? n)%nat && (n <=? 90)%nat) then ascii_of_nat (n + 32) else c.

Definition upperChar (c : ascii) : ascii :=
  let n := nat_of_ascii c in
  if ((97 <=? n)%nat && (n <=? 122)%nat) then ascii_of_nat (n - 32) else c.

Fixpoint mapChars (f : ascii -> ascii) (s : string) : string :=
  match s with
  | EmptyString => EmptyString
  | String c s' => String (f c) (mapChars f s')
  end.

(** [s.toLowerCase()], [s.toUpperCase()] *)
Definition toLowerCase : string -> string := mapChars lowerChar.
Definition toUpperCase : string -> string := mapChars upperChar.

(** [s.charAt(i)]: the one-character string at [i], or the empty string. *)
Definition charAt (s : string) (i : nat) : string :=
  match String.get i s with
  | Some c => String c EmptyString
  | None => EmptyString
  end.

(** [s.slice(i)] for [0 <= i]. *)
Definition slice (s : string) (i : nat) : string :=
  String.substring i (String.length s - i) s.

End JSString.

(** ** Data model (types.ts) *)

(** The [metadata] bag: [{}] by default, four fields on PAPER nodes. *)
Inductive Metadata : Type :=
| EmptyObject
| PaperMetadata (title date summary id : string).

(** [fx?: number | null] *)
Inductive Pin : Type :=
| PinUndefined
| PinNull
| PinAt (q : Q).

Record GraphNode : Type := mkGraphNode {
  node_id : string;
  node_label : string;
  node_group : string;
  node_val : Z;
  node_x : option Q;
  node_y : option Q;
  node_fx : Pin;
  node_fy : Pin;
  node_metadata : Metadata }.

Record GraphEdge : Type := mkGraphEdge {
  edge_source : string;
  edge_target : string;
  edge_relation : string }.

Record KnowledgeGraphData : Type := mkGraph {
  nodes : list GraphNode;
  edges : list GraphEdge }.

(** The fields of a [ResearchDocument] that the builder reads.  The three
    arrays are [None] when the property is missing on the object at run
    time; [doc_institute] is [None] for [null]/[undefined]. *)
Record ResearchDocument : Type := mkDoc {
  doc_id : string;
  doc_title : string;
  doc_publicationDate : string;
  doc_summary : string;
  doc_authors : option (list string);
  doc_institute : option string;
  doc_keyConcepts : option (list string);
  doc_methods : option (list string) }.

Global Instance Metadata_eq_dec : EqDecision Metadata.
Proof. solve_decision. Defined.
Global Instance GraphEdge_eq_dec : EqDecision GraphEdge.
Proof. solve_decision. Defined.

(** ** An insertion-ordered [Map<string, V>] *)

Module JSMap.
Section ops.
Context {V : Type}.

Definition t : Type := list (string * V).

Fixpoint get (m : t) (k : string) : option V :=
  match m with
  | [] => None
  | (k', v) :: m' => if decide (k' = k) then Some v else get m' k
  end.

Definition has (m : t) (k : string) : bool :=
  match get m k with Some _ => true | None => false end.

(** [m.set(k, v)]: a present key keeps its place, a new one goes last. *)
Fixpoint set (m : t) (k : string) (v : V) : t :=
  match m with
  | [] => [(k, v)]
  | (k', v') :: m' =>
      if decide (k' = k) then (k, v) :: m' else (k', v') :: set m' k v
  end.

Definition keys (m : t) : list string := m.*1.
Definition values (m : t) : list V := m.*2.
End ops.
Arguments t : clear implicits.
End JSMap.

(** ** The graph service *)

(** The one exception the builder can raise, and the two ways a call of it
    can complete. *)
Inductive Exn : Type := TypeError.

Inductive Completion (A : Type) : Type :=
| Normal (a : A)
| Throw (e : Exn).
Arguments Normal {A} a.
Arguments Throw {A} e.

(** The two locals every closure of [buildGlobalGraph] captures. *)
Record Store : Type := mkStore {
  st_nodes : JSMap.t GraphNode;
  st_edges : list GraphEdge }.

Definition Builder (A : Type) : Type := Store -> Completion (A * Store).

Global Instance Builder_ret : MRet Builder :=
  fun A a st => Normal (a, st).

Global Instance Builder_bind : MBind Builder :=
  fun A B k m st =>
    match m st with
    | Normal (a, st') => k a st'
    | Throw e => Throw e
    end.

Definition throw {A} (e : Exn) : Builder A := fun _ => Throw e.

(** Calling a closure that only updates the captured locals. *)
Definition call (f : Store -> Store) : Builder unit :=
  fun st => Normal (tt, f st).

(** Reading a method off a property: [undefined.forEach] is a TypeError. *)
Definition receiver {A} (o : option A) : Builder A :=
  match o with
  | Some a => mret a
  | None => throw TypeError
  end.

Fixpoint forEach {A} (l : list A) (body : A -> Builder unit) : Builder unit :=
  match l with
  | [] => mret tt
  | a :: l' => body a ;; forEach l' body
  end.

(** The object literal [{ id, label, group, val, metadata }]. *)
Definition newNode (id label group : string) (val : Z) (metadata : Metadata) : GraphNode :=
  {| node_id := id; node_label := label; node_group := group; node_val := val;
     node_x := None; node_y := None; node_fx := PinUndefined; node_fy := PinUndefined;
     node_metadata := metadata |}.

(** [node.val += 1] *)
Definition bump (n : GraphNode) : GraphNode :=
  {| node_id := node_id n; node_label := node_label n; node_group := node_group n;
     node_val := node_val n + 1;
     node_x := node_x n; node_y := node_y n; node_fx := node_fx n; node_fy := node_fy n;
     node_metadata := node_metadata n |}.

Definition addNode (id label group : string) (val : Z) (metadata : Metadata)
    (st : Store) : Store :=
  if negb (JSMap.has (st_nodes st) id) then
    {| st_nodes := JSMap.set (st_nodes st) id (newNode id label group val metadata);
       st_edges := st_edges st |}
  else
    (* const node = nodes.get(id)!; node.val += 1 *)
    match JSMap.get (st_nodes st) id with
    | Some node =>
        {| st_nodes := JSMap.set (st_nodes st) id (bump node); st_edges := st_edges st |}
    | None => st
    end.

(** The predicate of [edges.some(...)] in [addEdge]. *)
Definition sameEdge (source target relation : string) (e : GraphEdge) : bool :=
  (bool_decide (edge_source e = source) && bool_decide (edge_target e = target)
     && bool_decide (edge_relation e = relation))
  || (bool_decide (edge_source e = target) && bool_decide (edge_target e = source)
        && bool_decide (edge_relation e = relation)).

Definition addEdge (source target relation : string) (st : Store) : Store :=
  if bool_decide (source = target) then st
  else
    let exists_ := existsb (sameEdge source target relation) (st_edges st) in
    if negb exists_ then
      {| st_nodes := st_nodes st;
         st_edges := st_edges st ++ [mkGraphEdge source target relation] |}
    else st.

(** The truthy strings, as in [if (doc.institute)] and [if (!targetNodeId)]:
    neither [null] nor empty. *)
Definition truthy (o : option string) : option string :=
  match o with
  | Some EmptyString => None
  | Some s => Some s
  | None => None
  end.

(** [s.charAt(0).toUpperCase() + s.slice(1)], the label of a concept or of
    a method. *)
Definition capitalize (s : string) : string :=
  JSString.toUpperCase (JSString.charAt s 0) +:+ JSString.slice s 1.

(** The callback of [documents.forEach]: what the builder does with one
    document. *)
Definition processDocument (doc : ResearchDocument) : Builder unit :=
  let docId := "paper:" +:+ doc_id doc in
  call (addNode docId (doc_title doc) "PAPER" 10
          (PaperMetadata (doc_title doc) (doc_publicationDate doc)
             (doc_summary doc) (doc_id doc))) ;;
  authors ← receiver (doc_authors doc);
  forEach authors (fun author =>
    let authorId := "author:" +:+ JSString.trim author in
    call (addNode authorId (JSString.trim author) "AUTHOR" 5 EmptyObject) ;;
    call (addEdge docId authorId "written_by")) ;;
  match truthy (doc_institute doc) with
  | Some institute =>
      let instId := "inst:" +:+ JSString.trim institute in
      call (addNode instId (JSString.trim institute) "INSTITUTE" 6 EmptyObject) ;;
      call (addEdge docId instId "published_at") ;;
      authors ← receiver (doc_authors doc);
      forEach authors (fun author =>
        let authorId := "author:" +:+ JSString.trim author in
        call (addEdge authorId instId "affiliated_with"))
  | None => mret tt
  end ;;
  keyConcepts ← receiver (doc_keyConcepts doc);
  forEach (take 5 keyConcepts) (fun concept =>
    let conceptId := "concept:" +:+ JSString.trim (JSString.toLowerCase concept) in
    let label := capitalize concept in
    call (addNode conceptId label "CONCEPT" 3 EmptyObject) ;;
    call (addEdge docId conceptId "discusses")) ;;
  methods ← receiver (doc_methods doc);
  forEach (take 3 methods) (fun method =>
    let methodId := "method:" +:+ JSString.trim (JSString.toLowerCase method) in
    let label := capitalize method in
    call (addNode methodId label "METHOD" 3 EmptyObject) ;;
    call (addEdge docId methodId "uses_method")).

(** [new Map()] and [[]]. *)
Definition emptyStore : Store := {| st_nodes := []; st_edges := [] |}.

Definition buildGlobalGraph (documents : list ResearchDocument)
    : Completion KnowledgeGraphData :=
  match forEach documents processDocument emptyStore with
  | Normal (_, st) =>
      Normal {| nodes := JSMap.values (st_nodes st); edges := st_edges st |}
  | Throw e => Throw e
  end.

(** ** The graph view *)

(** [getRadius]: the [switch] on the group, with its default case. *)
Definition getRadius (group : string) (val : Z) : Z :=
  if decide (group = "PAPER") then 12 + Z.min val 5
  else if decide (group = "AUTHOR") then 8 + Z.min val 3
  else if decide (group = "INSTITUTE") then 10
  else 5 + Z.min val 3.

(** The radius handed to [d3.forceCollide]. *)
Definition collideRadius (d : GraphNode) : Z :=
  getRadius (node_group d) (node_val d) + 5.

(** The radius of the rendered circle. *)
Definition circleRadius (d : GraphNode) : Z :=
  getRadius (node_group d) (node_val d).

(** The opacity attributes of the circles, the labels (one per node, in
    the order of [data.nodes]) and the lines (one per edge, in the order of
    [data.edges]). *)
Record Scene : Type := mkScene {
  circles : list Q;
  labels : list Q;
  link : list Q }.

(** What the first rendering shows: circles and labels carry no opacity
    attribute (fully opaque), the lines inherit the [stroke-opacity] 0.6
    of their group. *)
Definition renderedScene (data : KnowledgeGraphData) : Scene :=
  {| circles := (fun _ => 1%Q) <$> nodes data;
     labels := (fun _ => 1%Q) <$> nodes data;
     link := (fun _ => (6 # 10)%Q) <$> edges data |}.

(** The set built by the [forEach] over [data.edges] in [handleHighlight].
    By then d3 has replaced the two endpoint ids of every edge by the node
    objects of these ids; [edge_source e] is the [id] of that object. *)
Definition linkedNodeIds (data : KnowledgeGraphData) (targetNodeId : string) : gset string :=
  foldl (fun linked e =>
           let s := edge_source e in
           let t := edge_target e in
           let linked := if decide (s = targetNodeId) then linked ∪ {[t]} else linked in
           if decide (t = targetNodeId) then linked ∪ {[s]} else linked)
        {[targetNodeId]} (edges data).

(** [handleHighlight]: every opacity attribute is overwritten. *)
Definition handleHighlight (data : KnowledgeGraphData) (targetNodeId : option string)
    : Scene :=
  match truthy targetNodeId with
  | None =>
      {| circles := (fun _ => 1%Q) <$> nodes data;
         link := (fun _ => (6 # 10)%Q) <$> edges data;
         labels := (fun _ => 1%Q) <$> nodes data |}
  | Some targetNodeId =>
      let linked := linkedNodeIds data targetNodeId in
      {| circles :=
           (fun d => if decide (node_id d ∈ linked) then 1%Q else (1 # 10)%Q) <$> nodes data;
         labels :=
           (fun d => if decide (node_id d ∈ linked) then 1%Q else (1 # 10)%Q) <$> nodes data;
         link :=
           (fun d => if decide (edge_source d ∈ linked /\ edge_target d ∈ linked)
                     then (8 # 10)%Q else (5 # 100)%Q) <$> edges data |}
  end.

(** The part of a d3 simulation the drag handlers touch. *)
Record Simulation : Type := mkSimulation {
  alphaTarget : Q;
  timerRunning : bool }.

Definition restart (sim : Simulation) : Simulation :=
  {| alphaTarget := alphaTarget sim; timerRunning := true |}.

Definition setAlphaTarget (a : Q) (sim : Simulation) : Simulation :=
  {| alphaTarget := a; timerRunning := timerRunning sim |}.

(** A drag event: the number of other active gestures, the dragged node
    (its index in [data.nodes], for the object reference) and the pointer. *)
Record DragEvent : Type := mkDragEvent {
  ev_active : nat;
  ev_subject : nat;
  ev_x : Q;
  ev_y : Q }.

(** The node array the simulation mutates, and the simulation. *)
Record View : Type := mkView {
  view_nodes : list GraphNode;
  view_simulation : Simulation }.

(** [subject.fx = p], [subject.fy = p] *)
Definition setFx (p : Pin) (n : GraphNode) : GraphNode :=
  {| node_id := node_id n; node_label := node_label n; node_group := node_group n;
     node_val := node_val n; node_x := node_x n; node_y := node_y n;
     node_fx := p; node_fy := node_fy n; node_metadata := node_metadata n |}.

Definition setFy (p : Pin) (n : GraphNode) : GraphNode :=
  {| node_id := node_id n; node_label := node_label n; node_group := node_group n;
     node_val := node_val n; node_x := node_x n; node_y := node_y n;
     node_fx := node_fx n; node_fy := p; node_metadata := node_metadata n |}.

Definition pinOf (c : option Q) : Pin :=
  match c with
  | Some q => PinAt q
  | None => PinUndefined
  end.

(** The three handlers of [drag]. *)
Definition dragstarted (event : DragEvent) (v : View) : View :=
  let simulation :=
    if decide (ev_active event = 0%nat)
    then restart (setAlphaTarget (3 # 10) (view_simulation v))
    else view_simulation v in
  let nodes1 :=
    alter (fun subject => setFx (pinOf (node_x subject)) subject)
          (ev_subject event) (view_nodes v) in
  let nodes2 :=
    alter (fun subject => setFy (pinOf (node_y subject)) subject)
          (ev_subject event) nodes1 in
  {| view_nodes := nodes2; view_simulation := simulation |}.

Definition dragged (event : DragEvent) (v : View) : View :=
  let nodes1 := alter (setFx (PinAt (ev_x event))) (ev_subject event) (view_nodes v) in
  let nodes2 := alter (setFy (PinAt (ev_y event))) (ev_subject event) nodes1 in
  {| view_nodes := nodes2; view_simulation := view_simulation v |}.

Definition dragended (event : DragEvent) (v : View) : View :=
  let simulation :=
    if decide (ev_active event = 0%nat)
    then setAlphaTarget 0 (view_simulation v)
    else view_simulation v in
  let nodes1 := alter (setFx PinNull) (ev_subject event) (view_nodes v) in
  let nodes2 := alter (setFy PinNull) (ev_subject event) nodes1 in
  {| view_nodes := nodes2; view_simulation := simulation |}.

(** [getColor]: the [switch] on the group, with its default case. *)
Definition getColor (group : string) : string :=
  if decide (group = "PAPER") then "#4f46e5"
  else if decide (group = "AUTHOR") then "#059669"
  else if decide (group = "INSTITUTE") then "#d97706"
  else if decide (group = "CONCEPT") then "#64748b"
  else if decide (group = "METHOD") then "#db2777"
  else "#94a3b8".




(** ** The graph explorer (components/ChatWidget.tsx) *)

(** The state [graphFilters] and its initial value. *)
Record GraphFilters : Type := mkGraphFilters {
  showConcepts : bool;
  showAuthors : bool;
  showInstitutes : bool }.

Definition initialGraphFilters : GraphFilters :=
  {| showConcepts := true; showAuthors := true; showInstitutes := true |}.

(** The callback of [rawData.nodes.filter]. *)
Definition nodeShown (graphFilters : GraphFilters) (n : GraphNode) : bool :=
  if bool_decide (node_group n = "CONCEPT") && negb (showConcepts graphFilters) then false
  else if bool_decide (node_group n = "AUTHOR") && negb (showAuthors graphFilters) then false
  else if bool_decide (node_group n = "INSTITUTE") && negb (showInstitutes graphFilters)
  then false
  else true.

(** The filtering of [globalGraphData].  The edges of [rawData] come
    straight from the builder, so their endpoints are strings. *)
Definition applyFilters (graphFilters : GraphFilters) (rawData : KnowledgeGraphData)
    : KnowledgeGraphData :=
  let filteredNodes := filter (fun n => nodeShown graphFilters n = true) (nodes rawData) in
  let nodeIds : gset string := list_to_set (node_id <$> filteredNodes) in
  let filteredEdges :=
    filter (fun e => edge_source e ∈ nodeIds /\ edge_target e ∈ nodeIds) (edges rawData) in
  {| nodes := filteredNodes; edges := filteredEdges |}.

Definition globalGraphData (documents : list ResearchDocument) (graphFilters : GraphFilters)
    : Completion KnowledgeGraphData :=
  match buildGlobalGraph documents with
  | Normal rawData => Normal (applyFilters graphFilters rawData)
  | Throw e => Throw e
  end.


(** The button "View Full Paper": the document it opens, if any.  The
    button is rendered for a PAPER node; [metadata.id] of an empty metadata
    object is undefined, which is the id of no document. *)
Definition viewFullPaper (documents : list ResearchDocument) (selectedGraphNode : GraphNode)
    : option ResearchDocument :=
  if decide (node_group selectedGraphNode = "PAPER") then
    match node_metadata selectedGraphNode with
    | PaperMetadata _ _ _ id => find (fun d => bool_decide (doc_id d = id)) documents
    | EmptyObject => None
    end
  else None.

(** * The vocabulary of the properties *)

(** ** The calls of a build *)

(** The arguments of one [addNode] call; those of an [addEdge] call are a
    [GraphEdge]. *)
Record NodeCall : Type := mkNodeCall {
  nc_id : string;
  nc_label : string;
  nc_group : string;
  nc_val : Z;
  nc_metadata : Metadata }.

(** The effect of one [addNode] call on the captured map, and of one
    [addEdge] call on the captured array. *)
Definition putNode (m : JSMap.t GraphNode) (c : NodeCall) : JSMap.t GraphNode :=
  st_nodes (addNode (nc_id c) (nc_label c) (nc_group c) (nc_val c) (nc_metadata c)
              {| st_nodes := m; st_edges := [] |}).

Definition putEdge (es : list GraphEdge) (e : GraphEdge) : list GraphEdge :=
  st_edges (addEdge (edge_source e) (edge_target e) (edge_relation e)
              {| st_nodes := []; st_edges := es |}).

(** The strings a well-formed document loops over. *)
Definition authorsOf (doc : ResearchDocument) : list string := default [] (doc_authors doc).
Definition conceptsOf (doc : ResearchDocument) : list string :=
  take 5 (default [] (doc_keyConcepts doc)).
Definition methodsOf (doc : ResearchDocument) : list string :=
  take 3 (default [] (doc_methods doc)).

(** The ids and the [addNode] calls of the five kinds of node. *)
Definition paperId (doc : ResearchDocument) : string := "paper:" +:+ doc_id doc.
Definition authorId (author : string) : string := "author:" +:+ JSString.trim author.
Definition instId (institute : string) : string := "inst:" +:+ JSString.trim institute.
Definition conceptId (concept : string) : string :=
  "concept:" +:+ JSString.trim (JSString.toLowerCase concept).
Definition methodId (method : string) : string :=
  "method:" +:+ JSString.trim (JSString.toLowerCase method).

Definition paperCall (doc : ResearchDocument) : NodeCall :=
  mkNodeCall (paperId doc) (doc_title doc) "PAPER" 10
    (PaperMetadata (doc_title doc) (doc_publicationDate doc) (doc_summary doc) (doc_id doc)).
Definition authorCall (author : string) : NodeCall :=
  mkNodeCall (authorId author) (JSString.trim author) "AUTHOR" 5 EmptyObject.
Definition instCall (institute : string) : NodeCall :=
  mkNodeCall (instId institute) (JSString.trim institute) "INSTITUTE" 6 EmptyObject.
Definition conceptCall (concept : string) : NodeCall :=
  mkNodeCall (conceptId concept) (capitalize concept) "CONCEPT" 3 EmptyObject.
Definition methodCall (method : string) : NodeCall :=
  mkNodeCall (methodId method) (capitalize method) "METHOD" 3 EmptyObject.

(** The [addNode] calls and the [addEdge] calls of a well-formed document,
    each in the order in which [processDocument] makes them. *)
Definition nodeCalls (doc : ResearchDocument) : list NodeCall :=
  paperCall doc :: (authorCall <$> authorsOf doc)
  ++ match truthy (doc_institute doc) with
     | Some institute => [instCall institute]
     | None => []
     end
  ++ (conceptCall <$> conceptsOf doc)
  ++ (methodCall <$> methodsOf doc).

Definition edgeCalls (doc : ResearchDocument) : list GraphEdge :=
  ((fun a => mkGraphEdge (paperId doc) (authorId a) "written_by") <$> authorsOf doc)
  ++ match truthy (doc_institute doc) with
     | Some institute =>
         mkGraphEdge (paperId doc) (instId institute) "published_at"
         :: ((fun a => mkGraphEdge (authorId a) (instId institute) "affiliated_with")
               <$> authorsOf doc)
     | None => []
     end
  ++ ((fun c => mkGraphEdge (paperId doc) (conceptId c) "discusses") <$> conceptsOf doc)
  ++ ((fun m => mkGraphEdge (paperId doc) (methodId m) "uses_method") <$> methodsOf doc).

(** A document is well formed when its three arrays are there. *)
Definition wellFormed (doc : ResearchDocument) : Prop :=
  is_Some (doc_authors doc) /\ is_Some (doc_keyConcepts doc) /\ is_Some (doc_methods doc).

Global Instance wellFormed_dec doc : Decision (wellFormed doc).
Proof. unfold wellFormed. apply _. Defined.

(** [runs m ns es]: from any store, [m] completes normally, and its effect
    is that of the [addNode] calls [ns] and the [addEdge] calls [es]. *)
Definition runs (m : Builder unit) (ns : list NodeCall) (es : list GraphEdge) : Prop :=
  forall st, m st = Normal (tt, {| st_nodes := foldl putNode (st_nodes st) ns;
                                   st_edges := foldl putEdge (st_edges st) es |}).

Definition throws {A} (m : Builder A) : Prop := forall st, m st = Throw TypeError.

(** The map and the array at the end of a build of well-formed documents. *)
Definition builtNodes (docs : list ResearchDocument) : JSMap.t GraphNode :=
  foldl putNode [] (docs ≫= nodeCalls).
Definition builtEdges (docs : list ResearchDocument) : list GraphEdge :=
  foldl putEdge [] (docs ≫= edgeCalls).

(** [n] after [k] increments of its weight. *)
Definition bumpBy (k : nat) (n : GraphNode) : GraphNode :=
  {| node_id := node_id n; node_label := node_label n; node_group := node_group n;
     node_val := node_val n + Z.of_nat k;
     node_x := node_x n; node_y := node_y n; node_fx := node_fx n; node_fy := node_fy n;
     node_metadata := node_metadata n |}.

(** The node a call creates when its id is new. *)
Definition nodeOfCall (c : NodeCall) : GraphNode :=
  newNode (nc_id c) (nc_label c) (nc_group c) (nc_val c) (nc_metadata c).

(** The calls that name the id [k]. *)
Definition callsFor (k : string) (cs : list NodeCall) : list NodeCall :=
  filter (fun c => nc_id c = k) cs.

(** ** Invariants of the map and of the array *)

(** Keys and node ids agree. *)
Definition keyed (m : JSMap.t GraphNode) : Prop :=
  Forall (fun kv => node_id kv.2 = kv.1) m.

(** [e] joins [a] and [b] (in either direction) under the relation [r]. *)
Definition joins (a b r : string) (e : GraphEdge) : Prop :=
  edge_relation e = r /\
  ((edge_source e = a /\ edge_target e = b) \/ (edge_source e = b /\ edge_target e = a)).

Global Instance joins_dec a b r e : Decision (joins a b r e).
Proof. unfold joins. apply _. Defined.

Definition noSelfLoop (es : list GraphEdge) : Prop :=
  Forall (fun e => edge_source e <> edge_target e) es.

Definition atMostOnce (es : list GraphEdge) : Prop :=
  forall a b r, (length (filter (fun e => sameEdge a b r e) es) <= 1)%nat.

(** ** The id name spaces

    Every id the builder makes starts with one of five prefixes, and the
    prefixes differ in their first character.  That character decides the
    group and the base weight of the node, and the direction of every edge
    call. *)

Definition kindOfId (id : string) : option (string * Z) :=
  match id with
  | String "p" _ => Some ("PAPER", 10)
  | String "a" _ => Some ("AUTHOR", 5)
  | String "i" _ => Some ("INSTITUTE", 6)
  | String "c" _ => Some ("CONCEPT", 3)
  | String "m" _ => Some ("METHOD", 3)
  | _ => None
  end.

(** The group and the weight of a call are those of its id. *)
Definition shaped (c : NodeCall) : Prop :=
  kindOfId (nc_id c) = Some (nc_group c, nc_val c).

Definition kindRank (id : string) : nat :=
  match id with
  | String "p" _ => 0
  | String "a" _ => 1
  | String "i" _ => 2
  | String "c" _ => 3
  | String "m" _ => 4
  | _ => 5
  end.

(** Papers point to everything else, authors point to institutes. *)
Definition forward (e : GraphEdge) : Prop :=
  (kindRank (edge_source e) < kindRank (edge_target e))%nat.

(** ** The statements of the claims *)

(** What of a node does not depend on which call came first. *)
Definition nodeSummary (n : GraphNode) : string * string * Z :=
  (node_id n, node_group n, node_val n).

(** The document with its institute replaced. *)
Definition withInstitute (institute : option string) (doc : ResearchDocument)
    : ResearchDocument :=
  {| doc_id := doc_id doc; doc_title := doc_title doc;
     doc_publicationDate := doc_publicationDate doc; doc_summary := doc_summary doc;
     doc_authors := doc_authors doc; doc_institute := institute;
     doc_keyConcepts := doc_keyConcepts doc; doc_methods := doc_methods doc |}.

(** The document with its concepts cut to the first 5 and its methods to
    the first 3. *)
Definition truncated (doc : ResearchDocument) : ResearchDocument :=
  {| doc_id := doc_id doc; doc_title := doc_title doc;
     doc_publicationDate := doc_publicationDate doc; doc_summary := doc_summary doc;
     doc_authors := doc_authors doc; doc_institute := doc_institute doc;
     doc_keyConcepts := take 5 <$> doc_keyConcepts doc;
     doc_methods := take 3 <$> doc_methods doc |}.

Definition discussesEdge (doc : ResearchDocument) (concept : string) : GraphEdge :=
  mkGraphEdge (paperId doc) (conceptId concept) "discusses".
Definition usesMethodEdge (doc : ResearchDocument) (method : string) : GraphEdge :=
  mkGraphEdge (paperId doc) (methodId method) "uses_method".

Definition nodesOfGroup (group : string) (g : KnowledgeGraphData) : list GraphNode :=
  filter (fun n => node_group n = group) (nodes g).
Definition edgesOfRelation (relation : string) (g : KnowledgeGraphData) : list GraphEdge :=
  filter (fun e => edge_relation e = relation) (edges g).

(** The shape the scenario gives to the graph, with the weights of the
    AUTHOR, INSTITUTE and CONCEPT nodes left open. *)
Definition scenarioShape (wAuthor wInstitute wConcept : Z) (g : KnowledgeGraphData) : Prop :=
  length (nodes g) = 5%nat
  /\ length (nodesOfGroup "PAPER" g) = 2%nat
  /\ node_val <$> nodesOfGroup "AUTHOR" g = [wAuthor]
  /\ node_val <$> nodesOfGroup "INSTITUTE" g = [wInstitute]
  /\ node_val <$> nodesOfGroup "CONCEPT" g = [wConcept]
  /\ length (edges g) = 7%nat
  /\ length (edgesOfRelation "written_by" g) = 2%nat
  /\ length (edgesOfRelation "published_at" g) = 2%nat
  /\ length (edgesOfRelation "affiliated_with" g) = 1%nat
  /\ length (edgesOfRelation "discusses" g) = 2%nat.

(** A node with both pin fields replaced and every other field kept. *)
Definition withPins (fx fy : Pin) (n : GraphNode) : GraphNode :=
  {| node_id := node_id n; node_label := node_label n; node_group := node_group n;
     node_val := node_val n; node_x := node_x n; node_y := node_y n;
     node_fx := fx; node_fy := fy; node_metadata := node_metadata n |}.

(** The sizing table: base radius and largest increment of each group. *)
Definition radiusBase (group : string) : Z :=
  if decide (group = "PAPER") then 12
  else if decide (group = "AUTHOR") then 8
  else if decide (group = "INSTITUTE") then 10
  else 5.

Definition maxIncrement (group : string) : Z :=
  if decide (group = "PAPER") then 5
  else if decide (group = "AUTHOR") then 3
  else if decide (group = "INSTITUTE") then 0
  else 3.

(** [k] is the selected node or shares an edge with it. *)
Definition oneHop (data : KnowledgeGraphData) (target k : string) : Prop :=
  k = target \/
  exists e, e ∈ edges data /\
    ((edge_source e = target /\ edge_target e = k)
     \/ (edge_target e = target /\ edge_source e = k)).

(** The author entries of the documents whose trimmed text is [name], and
    the documents that list [name] among their authors. *)
Definition authorEntries (name : string) (docs : list ResearchDocument) : list string :=
  filter (fun a => JSString.trim a = name) (docs ≫= authorsOf).

Definition listsAuthor (name : string) (doc : ResearchDocument) : Prop :=
  name ∈ JSString.trim <$> authorsOf doc.

Global Instance listsAuthor_dec name doc : Decision (listsAuthor name doc).
Proof. unfold listsAuthor. apply _. Defined.

Definition sharedBy (name : string) (docs : list ResearchDocument) : list ResearchDocument :=
  filter (listsAuthor name) docs.

(** ** Sample inputs *)

Definition doc1 : ResearchDocument :=
  mkDoc "d1" "First paper" "2024" "Summary one"
    (Some ["K. Chen"]) (Some "MIT") (Some ["GNN"]) (Some []).
Definition doc2 : ResearchDocument :=
  mkDoc "d2" "Second paper" "2025" "Summary two"
    (Some ["K. Chen"]) (Some "MIT") (Some ["GNN"]) (Some []).

(** A document that lists one author twice, the second time with a
    leading blank. *)
Definition docTwice : ResearchDocument :=
  mkDoc "d4" "Fourth paper" "2025" "Summary four"
    (Some ["K. Chen"; " K. Chen"]) None (Some []) (Some []).

Definition graphOr (c : Completion KnowledgeGraphData) : KnowledgeGraphData :=
  match c with
  | Normal g => g
  | Throw _ => {| nodes := []; edges := [] |}
  end.

Definition graph12 : KnowledgeGraphData :=
  Eval vm_compute in graphOr (buildGlobalGraph [doc1; doc2]).

(** A document without its [authors] array. *)
Definition docNoAuthors : ResearchDocument :=
  mkDoc "d3" "Third paper" "2025" "Summary three" None (Some "MIT") (Some ["GNN"]) (Some []).

(** A document with eight key concepts, two of which differ by case only. *)
Definition docEight : ResearchDocument :=
  mkDoc "d8" "Eight" "2025" "Summary"
    (Some []) None (Some ["GNN"; "gnn"; "a"; "b"; "c"; "d"; "e"; "f"]) (Some []).

(** Eight distinct key concepts, five distinct methods. *)
Definition docFull : ResearchDocument :=
  mkDoc "d9" "Full" "2025" "Summary" (Some ["A. Turing"]) (Some "MIT")
    (Some ["a"; "b"; "c"; "d"; "e"; "f"; "g"; "h"])
    (Some ["m1"; "m2"; "m3"; "m4"; "m5"]).

(** The two documents of the scenario, with any ids, titles, dates and
    summaries. *)
Definition scenarioDoc (id title date summary : string) : ResearchDocument :=
  mkDoc id title date summary (Some ["K. Chen"]) (Some "MIT") (Some ["GNN"]) (Some []).

(** The graph of the specification's example: edges A-B, A-C and D-E. *)
Definition graphStar : KnowledgeGraphData :=
  {| nodes := (fun k => newNode k k "CONCEPT" 3 EmptyObject) <$> ["A"; "B"; "C"; "D"; "E"];
     edges := [mkGraphEdge "A" "B" "r"; mkGraphEdge "A" "C" "r"; mkGraphEdge "D" "E" "r"] |}.

(** A graph one of whose nodes has the empty string as id. *)
Definition graphBlank : KnowledgeGraphData :=
  {| nodes := (fun k => newNode k k "CONCEPT" 3 EmptyObject) <$> [""; "B"];
     edges := [] |}.

(** Two placed nodes, and a drag of the first one. *)
Definition placed (x y : Q) (n : GraphNode) : GraphNode :=
  {| node_id := node_id n; node_label := node_label n; node_group := node_group n;
     node_val := node_val n; node_x := Some x; node_y := Some y;
     node_fx := node_fx n; node_fy := node_fy n; node_metadata := node_metadata n |}.

Definition nodeA : GraphNode := placed 3 4 (newNode "A" "A" "CONCEPT" 3 EmptyObject).
Definition nodeB : GraphNode := placed 5 6 (newNode "B" "B" "CONCEPT" 3 EmptyObject).

Definition viewAB : View :=
  {| view_nodes := [nodeA; nodeB];
     view_simulation := {| alphaTarget := 0; timerRunning := false |} |}.

Definition dragStart : DragEvent := mkDragEvent 0 0 3 4.
Definition dragMove : DragEvent := mkDragEvent 1 0 10 20.
Definition dragEnd : DragEvent := mkDragEvent 0 0 10 20.

(** ** The statements of the further properties *)

(** The groups a relation joins: source group, target group. *)
Definition edgeSchema (relation : string) : option (string * string) :=
  if decide (relation = "written_by") then Some ("PAPER", "AUTHOR")
  else if decide (relation = "published_at") then Some ("PAPER", "INSTITUTE")
  else if decide (relation = "affiliated_with") then Some ("AUTHOR", "INSTITUTE")
  else if decide (relation = "discusses") then Some ("PAPER", "CONCEPT")
  else if decide (relation = "uses_method") then Some ("PAPER", "METHOD")
  else None.

(** Whether the filters show the nodes of a group. *)
Definition shownGroup (graphFilters : GraphFilters) (group : string) : bool :=
  if decide (group = "CONCEPT") then showConcepts graphFilters
  else if decide (group = "AUTHOR") then showAuthors graphFilters
  else if decide (group = "INSTITUTE") then showInstitutes graphFilters
  else true.

(** The colour of the default case of [getColor]. *)
Definition defaultColor : string := "#94a3b8".

(** The [discusses] and the [uses_method] edges that leave a paper. *)
Definition edgesFrom (source relation : string) (g : KnowledgeGraphData) : list GraphEdge :=
  filter (fun e => edge_source e = source /\ edge_relation e = relation) (edges g).

(** A sequence of pointer moves. *)
Definition draggedAll (moves : list DragEvent) (v : View) : View :=
  foldl (fun w event => dragged event w) v moves.

(** The documents whose id is [id]. *)
Definition documentsWithId (id : string) (docs : list ResearchDocument)
    : list ResearchDocument :=
  filter (fun d => doc_id d = id) docs.

(** The metadata the builder hands to the PAPER node of a document. *)
Definition metadataOf (doc : ResearchDocument) : Metadata :=
  PaperMetadata (doc_title doc) (doc_publicationDate doc) (doc_summary doc) (doc_id doc).

(** A second document under the id of [doc1]. *)
Definition doc1Again : ResearchDocument :=
  mkDoc "d1" "First paper, revised" "2026" "Summary one, revised"
    (Some ["A. Turing"]) (Some "Cambridge") (Some ["GNN"]) (Some ["Message passing"]).

(** Filters that hide the authors only. *)
Definition hideAuthors : GraphFilters :=
  {| showConcepts := true; showAuthors := false; showInstitutes := true |}.

(** * Lemmas on the program *)

(** ** The ordered map *)

Module JSMapFacts.
Import JSMap.
Section facts.
Context {V : Type}.
Implicit Types (m : JSMap.t V) (k : string) (v : V).

Lemma has_true m k : has m k = true <-> is_Some (get m k).
Proof.
  unfold has. destruct (get m k); split; try done; eauto.
Qed.

Lemma has_false m k : has m k = false <-> get m k = None.
Proof. unfold has. by destruct (get m k). Qed.

Lemma get_None_keys m k : get m k = None <-> k ∉ keys m.
Proof.
  unfold keys. induction m as [|[k' v'] m IH]; simpl.
  - split; [intros _ H; by apply elem_of_nil in H | done].
  - rewrite not_elem_of_cons. case_decide; subst.
    + split; [done | by intros [? _]].
    + rewrite IH. split; [done | by intros [_ ?]].
Qed.

Lemma get_Some_elem m k v : get m k = Some v -> (k, v) ∈ m.
Proof.
  induction m as [|[k' v'] m IH]; simpl; [done|].
  case_decide; subst.
  - intros [= ->]. left.
  - intros ?. right. eauto.
Qed.

Lemma elem_get_Some m k v : NoDup (keys m) -> (k, v) ∈ m -> get m k = Some v.
Proof.
  unfold keys. induction m as [|[k' v'] m IH]; simpl.
  - intros _ H. by apply elem_of_nil in H.
  - intros [Hk Hnd]%NoDup_cons [[= -> ->] | Hin]%elem_of_cons.
    + by rewrite decide_True.
    + rewrite decide_False; [by apply IH|].
      intros ->. apply Hk. apply list_elem_of_fmap.
      by exists (k, v).
Qed.

Lemma get_set_eq m k v : get (set m k v) k = Some v.
Proof.
  induction m as [|[k' v'] m IH]; simpl.
  - by rewrite decide_True.
  - case_decide; simpl; subst.
    + by rewrite decide_True.
    + by rewrite decide_False.
Qed.

Lemma get_set_ne m k k' v : k <> k' -> get (set m k v) k' = get m k'.
Proof.
  intros Hne. induction m as [|[k0 v0] m IH]; simpl.
  - by rewrite decide_False.
  - case_decide; simpl; subst.
    + by rewrite !decide_False.
    + by rewrite IH.
Qed.

Lemma keys_set_new m k v : get m k = None -> keys (set m k v) = keys m ++ [k].
Proof.
  unfold keys. induction m as [|[k' v'] m IH]; simpl; [done|].
  case_decide; [done|]. intros H'. csimpl. by rewrite IH.
Qed.

Lemma keys_set_old m k v : is_Some (get m k) -> keys (set m k v) = keys m.
Proof.
  unfold keys. induction m as [|[k' v'] m IH]; simpl.
  - by intros [].
  - case_decide; subst; csimpl; [done|]. intros H'. by rewrite IH.
Qed.
End facts.
End JSMapFacts.

(** ** Running the builder: the calls a document makes *)

Lemma addNode_putNode id label group val metadata st :
  addNode id label group val metadata st =
  {| st_nodes := putNode (st_nodes st) (mkNodeCall id label group val metadata);
     st_edges := st_edges st |}.
Proof.
  unfold putNode, addNode; simpl. destruct st as [m es]; simpl.
  destruct (JSMap.has m id); simpl; [|done].
  by destruct (JSMap.get m id).
Qed.

Lemma addEdge_putEdge source target relation st :
  addEdge source target relation st =
  {| st_nodes := st_nodes st;
     st_edges := putEdge (st_edges st) (mkGraphEdge source target relation) |}.
Proof.
  unfold putEdge, addEdge; simpl. destruct st as [m es]; simpl.
  case_bool_decide; [done|].
  by destruct (existsb _ es).
Qed.

Section running.

Lemma runs_ret : runs (mret tt) [] [].
Proof. by intros []. Qed.

Lemma runs_addNode id label group val metadata :
  runs (call (addNode id label group val metadata))
       [mkNodeCall id label group val metadata] [].
Proof. intros st. unfold call. by rewrite addNode_putNode. Qed.

Lemma runs_addEdge source target relation :
  runs (call (addEdge source target relation)) [] [mkGraphEdge source target relation].
Proof. intros st. unfold call. by rewrite addEdge_putEdge. Qed.

Lemma runs_bind m k ns es ns' es' :
  runs m ns es -> runs (k tt) ns' es' -> runs (m ≫= k) (ns ++ ns') (es ++ es').
Proof.
  intros Hm Hk st. unfold mbind, Builder_bind. rewrite Hm, Hk. simpl.
  by rewrite !foldl_app.
Qed.

Lemma runs_receiver {A} (a : A) k ns es :
  runs (k a) ns es -> runs (receiver (Some a) ≫= k) ns es.
Proof. intros Hk st. apply Hk. Qed.

Lemma runs_forEach {A} (l : list A) body (fn : A -> list NodeCall) (fe : A -> list GraphEdge) :
  (forall a, a ∈ l -> runs (body a) (fn a) (fe a)) ->
  runs (forEach l body) (l ≫= fn) (l ≫= fe).
Proof.
  induction l as [|a l IH]; intros Hbody.
  - apply runs_ret.
  - simpl. apply runs_bind.
    + apply Hbody. left.
    + apply IH. intros b Hb. apply Hbody. by right.
Qed.

Lemma runs_option {A} (o : option A) (m : A -> Builder unit)
    (ns : A -> list NodeCall) (es : A -> list GraphEdge) :
  (forall a, runs (m a) (ns a) (es a)) ->
  runs (match o with Some a => m a | None => mret tt end)
       (match o with Some a => ns a | None => [] end)
       (match o with Some a => es a | None => [] end).
Proof. intros Hm. destruct o; [apply Hm | apply runs_ret]. Qed.

Lemma runs_ext m ns es ns' es' :
  runs m ns es -> ns = ns' -> es = es' -> runs m ns' es'.
Proof. by intros ? <- <-. Qed.

Lemma throws_receiver {A B} (k : A -> Builder B) : throws (receiver None ≫= k).
Proof. by intros st. Qed.

Lemma throws_bind {B} m (k : unit -> Builder B) ns es :
  runs m ns es -> throws (k tt) -> throws (m ≫= k).
Proof.
  intros Hm Hk st. unfold mbind, Builder_bind. by rewrite Hm, Hk.
Qed.

Lemma bind_singleton {A B} (f : A -> B) (l : list A) :
  l ≫= (fun a => [f a]) = f <$> l.
Proof. induction l as [|a l IH]; csimpl; [done|]. by rewrite IH. Qed.

Lemma bind_nil_const {A B} (l : list A) : l ≫= (fun _ => @nil B) = [].
Proof. induction l as [|a l IH]; csimpl; done. Qed.

End running.

Lemma processDocument_runs doc :
  wellFormed doc -> runs (processDocument doc) (nodeCalls doc) (edgeCalls doc).
Proof.
  destruct doc as [id title date summary authors institute concepts methods].
  unfold wellFormed; simpl. intros ([authors' ->] & [concepts' ->] & [methods' ->]).
  unfold processDocument, nodeCalls, edgeCalls, authorsOf, conceptsOf, methodsOf.
  cbn [doc_id doc_title doc_publicationDate doc_summary doc_authors doc_institute
       doc_keyConcepts doc_methods default].
  eapply runs_ext.
  - eapply runs_bind; [apply runs_addNode|].
    eapply runs_receiver, runs_bind.
    { apply runs_forEach. intros a _.
      eapply runs_bind; [apply runs_addNode | apply runs_addEdge]. }
    eapply runs_bind.
    { eapply runs_option. intros i.
      eapply runs_bind; [apply runs_addNode|].
      eapply runs_bind; [apply runs_addEdge|].
      eapply runs_receiver, runs_forEach. intros a _. apply runs_addEdge. }
    eapply runs_receiver, runs_bind.
    { apply runs_forEach. intros a _.
      eapply runs_bind; [apply runs_addNode | apply runs_addEdge]. }
    eapply runs_receiver.
    apply runs_forEach. intros a _.
    eapply runs_bind; [apply runs_addNode | apply runs_addEdge].
  - cbn. rewrite !bind_singleton, bind_nil_const.
    by destruct (truthy institute).
  - cbn. rewrite !bind_singleton.
    by destruct (truthy institute).
Qed.

Lemma processDocument_throws doc : ~ wellFormed doc -> throws (processDocument doc).
Proof.
  destruct doc as [id title date summary authors institute concepts methods].
  unfold wellFormed; simpl. intros Hwf.
  unfold processDocument.
  cbn [doc_id doc_title doc_publicationDate doc_summary doc_authors doc_institute
       doc_keyConcepts doc_methods].
  eapply throws_bind; [apply runs_addNode|].
  destruct authors as [authors|]; [|apply throws_receiver].
  eapply throws_bind.
  { apply runs_receiver. apply runs_forEach. intros a _.
    eapply runs_bind; [apply runs_addNode | apply runs_addEdge]. }
  eapply throws_bind.
  { eapply runs_option. intros i.
    eapply runs_bind; [apply runs_addNode|].
    eapply runs_bind; [apply runs_addEdge|].
    eapply runs_receiver, runs_forEach. intros a _. apply runs_addEdge. }
  destruct concepts as [concepts|]; [|apply throws_receiver].
  eapply throws_bind.
  { apply runs_receiver. apply runs_forEach. intros a _.
    eapply runs_bind; [apply runs_addNode | apply runs_addEdge]. }
  destruct methods as [methods|]; [|apply throws_receiver].
  destruct Hwf. eauto.
Qed.

(** The whole loop over the documents. *)
Lemma forEach_documents_runs docs :
  Forall wellFormed docs ->
  runs (forEach docs processDocument) (docs ≫= nodeCalls) (docs ≫= edgeCalls).
Proof.
  intros Hwf. apply runs_forEach. intros doc Hdoc.
  apply processDocument_runs. by eapply Forall_forall in Hwf.
Qed.

Lemma forEach_documents_throws docs :
  ~ Forall wellFormed docs -> throws (forEach docs processDocument).
Proof.
  induction docs as [|doc docs IH]; intros Hwf.
  - destruct Hwf. constructor.
  - simpl. destruct (decide (wellFormed doc)) as [Hdoc|Hdoc].
    + eapply throws_bind; [by apply processDocument_runs|].
      apply IH. intros Hdocs. apply Hwf. by constructor.
    + intros st. unfold mbind, Builder_bind.
      by rewrite (processDocument_throws doc Hdoc st).
Qed.

Lemma buildGlobalGraph_Normal docs :
  Forall wellFormed docs ->
  buildGlobalGraph docs =
  Normal {| nodes := JSMap.values (builtNodes docs); edges := builtEdges docs |}.
Proof.
  intros Hwf. unfold buildGlobalGraph.
  by rewrite (forEach_documents_runs docs Hwf emptyStore).
Qed.

Lemma buildGlobalGraph_Throw docs :
  ~ Forall wellFormed docs -> buildGlobalGraph docs = Throw TypeError.
Proof.
  intros Hwf. unfold buildGlobalGraph.
  by rewrite (forEach_documents_throws docs Hwf emptyStore).
Qed.

Lemma buildGlobalGraph_inv docs g :
  buildGlobalGraph docs = Normal g ->
  Forall wellFormed docs /\
  g = {| nodes := JSMap.values (builtNodes docs); edges := builtEdges docs |}.
Proof.
  intros Hg. destruct (decide (Forall wellFormed docs)) as [Hwf|Hwf].
  - split; [done|]. rewrite buildGlobalGraph_Normal in Hg by done. congruence.
  - by rewrite buildGlobalGraph_Throw in Hg.
Qed.

(** ** Nodes: what a sequence of [addNode] calls leaves in the map *)

Section nodes.
Import JSMap JSMapFacts.
Implicit Types (m : JSMap.t GraphNode) (c : NodeCall) (cs : list NodeCall) (k : string).

Lemma bumpBy_0 n : bumpBy 0 n = n.
Proof. destruct n. unfold bumpBy; simpl. f_equal. lia. Qed.

Lemma bumpBy_bump j n : bumpBy j (bump n) = bumpBy (S j) n.
Proof. unfold bumpBy, bump; simpl. f_equal. lia. Qed.

Lemma putNode_fresh m c :
  get m (nc_id c) = None -> putNode m c = set m (nc_id c) (nodeOfCall c).
Proof.
  intros Hget. unfold putNode, addNode; simpl.
  apply has_false in Hget. by rewrite Hget.
Qed.

Lemma putNode_present m c n :
  get m (nc_id c) = Some n -> putNode m c = set m (nc_id c) (bump n).
Proof.
  intros Hget. unfold putNode, addNode; simpl.
  assert (has m (nc_id c) = true) as -> by (apply has_true; eauto).
  by rewrite Hget.
Qed.

Lemma get_putNode_ne m c k : nc_id c <> k -> get (putNode m c) k = get m k.
Proof.
  intros Hne. destruct (get m (nc_id c)) as [n|] eqn:Hget.
  - rewrite (putNode_present _ _ _ Hget). by apply get_set_ne.
  - rewrite (putNode_fresh _ _ Hget). by apply get_set_ne.
Qed.

Lemma keys_putNode m c :
  keys (putNode m c) = if has m (nc_id c) then keys m else keys m ++ [nc_id c].
Proof.
  destruct (get m (nc_id c)) as [n|] eqn:Hget.
  - rewrite (putNode_present _ _ _ Hget).
    assert (has m (nc_id c) = true) as -> by (apply has_true; eauto).
    apply keys_set_old; eauto.
  - rewrite (putNode_fresh _ _ Hget).
    assert (has m (nc_id c) = false) as -> by by apply has_false.
    by apply keys_set_new.
Qed.

(** A node that is in the map keeps everything but its weight, which
    grows by the number of calls naming it. *)
Lemma get_foldl_present cs m k n :
  get m k = Some n ->
  get (foldl putNode m cs) k = Some (bumpBy (length (callsFor k cs)) n).
Proof.
  revert m n. induction cs as [|c cs IH]; intros m n Hget; simpl.
  - by rewrite bumpBy_0.
  - unfold callsFor. rewrite filter_cons. case_decide as Hc.
    + subst k. erewrite IH.
      * by rewrite bumpBy_bump.
      * rewrite (putNode_present _ _ _ Hget). apply get_set_eq.
    + apply IH. by rewrite get_putNode_ne.
Qed.

(** A node that is not yet in the map is created by the first call that
    names it. *)
Lemma get_foldl_fresh cs m k :
  get m k = None ->
  get (foldl putNode m cs) k =
  match callsFor k cs with
  | [] => None
  | c :: rest => Some (bumpBy (length rest) (nodeOfCall c))
  end.
Proof.
  revert m. induction cs as [|c cs IH]; intros m Hget; simpl; [done|].
  unfold callsFor. rewrite filter_cons. case_decide as Hc.
  - subst k. apply get_foldl_present.
    rewrite (putNode_fresh _ _ Hget). apply get_set_eq.
  - apply IH. by rewrite get_putNode_ne.
Qed.

Lemma keys_foldl cs m k :
  k ∈ keys (foldl putNode m cs) <-> k ∈ keys m \/ k ∈ nc_id <$> cs.
Proof.
  revert m. induction cs as [|c cs IH]; intros m; csimpl.
  - rewrite elem_of_nil. tauto.
  - rewrite IH, keys_putNode, elem_of_cons.
    destruct (has m (nc_id c)) eqn:Hhas.
    + apply has_true in Hhas.
      assert (nc_id c ∈ keys m); [|intuition (subst; auto)].
      destruct (decide (nc_id c ∈ keys m)) as [|Hn]; [done|].
      apply get_None_keys in Hn. rewrite Hn in Hhas. by destruct Hhas.
    + rewrite elem_of_app, list_elem_of_singleton. tauto.
Qed.

Lemma NoDup_keys_foldl cs m : NoDup (keys m) -> NoDup (keys (foldl putNode m cs)).
Proof.
  revert m. induction cs as [|c cs IH]; intros m Hnd; simpl; [done|].
  apply IH. rewrite keys_putNode.
  destruct (has m (nc_id c)) eqn:Hhas; [done|].
  apply has_false, get_None_keys in Hhas.
  apply NoDup_app. split_and!; [done| |apply NoDup_singleton].
  intros x Hx ->%list_elem_of_singleton. done.
Qed.

Lemma keyed_set m k n : keyed m -> node_id n = k -> keyed (set m k n).
Proof.
  intros Hm Hn. induction m as [|[k' n'] m IH]; simpl.
  - by repeat constructor.
  - apply Forall_cons in Hm as [Hk' Hm]. case_decide; subst.
    + by constructor.
    + constructor; [done | by apply IH].
Qed.

Lemma keyed_putNode m c : keyed m -> keyed (putNode m c).
Proof.
  intros Hm. destruct (get m (nc_id c)) as [n|] eqn:Hget.
  - rewrite (putNode_present _ _ _ Hget). apply keyed_set; [done|].
    apply get_Some_elem in Hget.
    unfold keyed in Hm. rewrite Forall_forall in Hm. apply (Hm _ Hget).
  - rewrite (putNode_fresh _ _ Hget). by apply keyed_set.
Qed.

Lemma keyed_foldl cs m : keyed m -> keyed (foldl putNode m cs).
Proof.
  revert m. induction cs as [|c cs IH]; intros m Hm; simpl; [done|].
  by apply IH, keyed_putNode.
Qed.

Lemma keyed_ids m : keyed m -> node_id <$> values m = keys m.
Proof.
  unfold values, keys. induction 1 as [|[k n] m Hk Hm IH]; csimpl; [done|].
  simpl in Hk. by rewrite Hk, IH.
Qed.

End nodes.

(** ** Edges: what a sequence of [addEdge] calls leaves in the array *)

Section edges.
Implicit Types (e : GraphEdge) (es cs : list GraphEdge).

Lemma filter_none {A} (P : A -> Prop) `{!forall x, Decision (P x)} (l : list A) :
  (forall x, x ∈ l -> ~ P x) -> filter P l = [].
Proof.
  induction l as [|x l IH]; intros HP; [done|].
  rewrite filter_cons_False by (apply HP; left).
  apply IH. intros y Hy. apply HP. by right.
Qed.

Lemma sameEdge_joins a b r e : sameEdge a b r e <-> joins a b r e.
Proof.
  unfold sameEdge, joins.
  rewrite orb_True, !andb_True, !bool_decide_spec. tauto.
Qed.

Lemma existsb_sameEdge a b r es :
  existsb (sameEdge a b r) es = true <-> exists e, e ∈ es /\ joins a b r e.
Proof.
  rewrite existsb_exists. split; intros (e & Hin & He); exists e.
  - apply list_elem_of_In in Hin. split; [done|].
    apply sameEdge_joins. by rewrite He.
  - apply list_elem_of_In in Hin. split; [done|].
    apply sameEdge_joins in He. by apply Is_true_eq_true.
Qed.

Lemma putEdge_unfold es e :
  putEdge es e =
  if bool_decide (edge_source e = edge_target e) then es
  else if existsb (sameEdge (edge_source e) (edge_target e) (edge_relation e)) es
       then es else es ++ [e].
Proof.
  unfold putEdge, addEdge; simpl. destruct e as [s t r]; simpl.
  case_bool_decide; [done|]. by destruct (existsb _ es).
Qed.

Lemma elem_of_putEdge es e e' : e' ∈ putEdge es e -> e' ∈ es \/ e' = e.
Proof.
  rewrite putEdge_unfold. case_bool_decide; [by left|].
  destruct (existsb _ es); [by left|].
  rewrite elem_of_app, list_elem_of_singleton. tauto.
Qed.

Lemma putEdge_mono es e e' : e' ∈ es -> e' ∈ putEdge es e.
Proof.
  intros Hin. rewrite putEdge_unfold. case_bool_decide; [done|].
  destruct (existsb _ es); [done|]. apply elem_of_app. by left.
Qed.

Lemma foldl_putEdge_mono cs es e' : e' ∈ es -> e' ∈ foldl putEdge es cs.
Proof.
  revert es. induction cs as [|c cs IH]; intros es Hin; simpl; [done|].
  by apply IH, putEdge_mono.
Qed.

Lemma elem_of_foldl_putEdge cs es e' :
  e' ∈ foldl putEdge es cs -> e' ∈ es \/ e' ∈ cs.
Proof.
  revert es. induction cs as [|c cs IH]; intros es; simpl; [by left|].
  intros [[Hin | ->]%elem_of_putEdge | Hin]%IH.
  - by left.
  - right. left.
  - right. by right.
Qed.

(** A proper edge is represented after its call, possibly by its mirror. *)
Lemma putEdge_joined es e :
  edge_source e <> edge_target e ->
  exists e', e' ∈ putEdge es e /\ joins (edge_source e) (edge_target e) (edge_relation e) e'.
Proof.
  intros Hne. rewrite putEdge_unfold. rewrite bool_decide_eq_false_2 by done.
  destruct (existsb _ es) eqn:Hex.
  - by apply existsb_sameEdge in Hex.
  - exists e. split; [apply elem_of_app; right; left|].
    unfold joins. tauto.
Qed.

Lemma noSelfLoop_putEdge es e : noSelfLoop es -> noSelfLoop (putEdge es e).
Proof.
  intros Hes. rewrite putEdge_unfold. case_bool_decide as Hne; [done|].
  destruct (existsb _ es); [done|].
  apply Forall_app. split; [done|]. by repeat constructor.
Qed.

Lemma noSelfLoop_foldl cs es : noSelfLoop es -> noSelfLoop (foldl putEdge es cs).
Proof.
  revert es. induction cs as [|c cs IH]; intros es Hes; simpl; [done|].
  by apply IH, noSelfLoop_putEdge.
Qed.

Lemma joins_same a b r a' b' r' e :
  joins a b r e -> joins a' b' r' e -> forall e', joins a b r e' <-> joins a' b' r' e'.
Proof. unfold joins. intros ? ? e'. intuition congruence. Qed.

Lemma atMostOnce_putEdge es e : atMostOnce es -> atMostOnce (putEdge es e).
Proof.
  intros Hes. rewrite putEdge_unfold. case_bool_decide as Hne; [done|].
  destruct (existsb _ es) eqn:Hex; [done|].
  intros a b r. rewrite filter_app, length_app, filter_cons, filter_nil.
  case_decide as He; simpl; [|specialize (Hes a b r); lia].
  apply sameEdge_joins in He.
  assert (filter (fun e0 => sameEdge a b r e0) es = []) as ->; [|simpl; lia].
  apply filter_none. intros e' Hin He'.
  apply sameEdge_joins in He'.
  assert (existsb (sameEdge (edge_source e) (edge_target e) (edge_relation e)) es = true);
    [|congruence].
  apply existsb_sameEdge. exists e'. split; [done|].
  apply (joins_same a b r _ _ _ e); [done| |done].
  unfold joins. tauto.
Qed.

Lemma atMostOnce_foldl cs es : atMostOnce es -> atMostOnce (foldl putEdge es cs).
Proof.
  revert es. induction cs as [|c cs IH]; intros es Hes; simpl; [done|].
  by apply IH, atMostOnce_putEdge.
Qed.

Lemma NoDup_putEdge es e : NoDup es -> NoDup (putEdge es e).
Proof.
  intros Hes. rewrite putEdge_unfold. case_bool_decide as Hne; [done|].
  destruct (existsb _ es) eqn:Hex; [done|].
  apply NoDup_app. split_and!; [done| |apply NoDup_singleton].
  intros e' Hin ->%list_elem_of_singleton.
  assert (existsb (sameEdge (edge_source e) (edge_target e) (edge_relation e)) es = true);
    [|congruence].
  apply existsb_sameEdge. exists e. split; [done|]. unfold joins. tauto.
Qed.

Lemma NoDup_foldl_putEdge cs es : NoDup es -> NoDup (foldl putEdge es cs).
Proof.
  revert es. induction cs as [|c cs IH]; intros es Hes; simpl; [done|].
  by apply IH, NoDup_putEdge.
Qed.

End edges.

(** ** The id name spaces *)

Section shapes.

Lemma nodeCalls_shaped doc c : c ∈ nodeCalls doc -> shaped c.
Proof.
  unfold nodeCalls.
  rewrite elem_of_cons, !elem_of_app, !list_elem_of_fmap.
  intros [-> | [(a & -> & _) | [Hi | [(a & -> & _) | (a & -> & _)]]]]; try done.
  destruct (truthy (doc_institute doc)); [|by apply elem_of_nil in Hi].
  by apply list_elem_of_singleton in Hi as ->.
Qed.

Lemma edgeCalls_forward doc e : e ∈ edgeCalls doc -> forward e.
Proof.
  unfold edgeCalls, forward.
  rewrite !elem_of_app, !list_elem_of_fmap.
  intros [(a & -> & _) | [Hi | [(a & -> & _) | (a & -> & _)]]]; simpl; try lia.
  destruct (truthy (doc_institute doc)); [|by apply elem_of_nil in Hi].
  apply elem_of_cons in Hi as [-> | (a & -> & _)%list_elem_of_fmap]; simpl; lia.
Qed.

(** Both endpoints of an edge call are ids of node calls of the same
    document. *)
Lemma edgeCalls_endpoints doc e :
  e ∈ edgeCalls doc ->
  edge_source e ∈ nc_id <$> nodeCalls doc /\ edge_target e ∈ nc_id <$> nodeCalls doc.
Proof.
  intros He.
  assert (paperId doc ∈ nc_id <$> nodeCalls doc) as Hpaper.
  { apply list_elem_of_fmap. exists (paperCall doc). split; [done | left]. }
  assert (forall a, a ∈ authorsOf doc -> authorId a ∈ nc_id <$> nodeCalls doc) as Hauthor.
  { intros a Ha. apply list_elem_of_fmap. exists (authorCall a). split; [done|].
    unfold nodeCalls. right. rewrite !elem_of_app. left.
    by apply list_elem_of_fmap_2. }
  unfold edgeCalls in He.
  rewrite !elem_of_app, !list_elem_of_fmap in He.
  destruct He as [(a & -> & Ha) | [Hi | [(a & -> & Ha) | (a & -> & Ha)]]];
    cbn [edge_source edge_target].
  - split; [done | by apply Hauthor].
  - destruct (truthy (doc_institute doc)) as [i|] eqn:Hinst;
      [|by apply elem_of_nil in Hi].
    assert (instId i ∈ nc_id <$> nodeCalls doc) as Hinstitute.
    { apply list_elem_of_fmap. exists (instCall i). split; [done|].
      unfold nodeCalls. rewrite Hinst. right. rewrite !elem_of_app. right; left. left. }
    apply elem_of_cons in Hi as [-> | (a & -> & Ha)%list_elem_of_fmap];
      cbn [edge_source edge_target].
    + by split.
    + split; [by apply Hauthor | done].
  - split; [done|]. apply list_elem_of_fmap. exists (conceptCall a). split; [done|].
    unfold nodeCalls. right. rewrite !elem_of_app. do 2 right. left.
    by apply list_elem_of_fmap_2.
  - split; [done|]. apply list_elem_of_fmap. exists (methodCall a). split; [done|].
    unfold nodeCalls. right. rewrite !elem_of_app. do 3 right.
    by apply list_elem_of_fmap_2.
Qed.

Lemma forward_proper e : forward e -> edge_source e <> edge_target e.
Proof. unfold forward. intros Hlt Heq. rewrite Heq in Hlt. lia. Qed.

Lemma forward_joins e e' :
  forward e -> forward e' ->
  joins (edge_source e) (edge_target e) (edge_relation e) e' -> e' = e.
Proof.
  unfold forward, joins. destruct e as [s t r], e' as [s' t' r']; simpl.
  intros He He' [-> [[-> ->] | [-> ->]]]; [done | lia].
Qed.

(** When every call is forward, the array holds exactly the edges that
    were called for. *)
Lemma elem_of_foldl_forward cs es e :
  Forall forward es -> Forall forward cs ->
  e ∈ foldl putEdge es cs <-> e ∈ es \/ e ∈ cs.
Proof.
  intros Hes Hcs. split; [apply elem_of_foldl_putEdge|].
  intros [Hin | Hin]; [by apply foldl_putEdge_mono|].
  revert es Hes. induction Hcs as [|c cs Hc Hcs IH]; intros es Hes; simpl.
  - by apply elem_of_nil in Hin.
  - assert (Forall forward (putEdge es c)) as Hes'.
    { apply Forall_forall. intros e' [He' | ->]%elem_of_putEdge; [|done].
      rewrite Forall_forall in Hes. by apply Hes. }
    apply elem_of_cons in Hin as [-> | Hin]; [|by apply IH].
    apply foldl_putEdge_mono.
    destruct (putEdge_joined es c (forward_proper c Hc)) as (e' & Hin' & Hj).
    rewrite Forall_forall in Hes'.
    by rewrite (forward_joins c e' Hc (Hes' _ Hin') Hj) in Hin'.
Qed.

End shapes.

(** ** The built graph *)

Section built.
Import JSMap JSMapFacts.
Implicit Types (docs : list ResearchDocument) (k : string).

Lemma allCalls_shaped docs c : c ∈ docs ≫= nodeCalls -> shaped c.
Proof. intros (doc & Hc & _)%list_elem_of_bind. by eapply nodeCalls_shaped. Qed.

Lemma allCalls_forward docs : Forall forward (docs ≫= edgeCalls).
Proof.
  apply Forall_forall. intros e (doc & He & _)%list_elem_of_bind.
  by eapply edgeCalls_forward.
Qed.

Lemma NoDup_builtNodes docs : NoDup (keys (builtNodes docs)).
Proof. apply NoDup_keys_foldl. constructor. Qed.

Lemma keyed_builtNodes docs : keyed (builtNodes docs).
Proof. apply keyed_foldl. constructor. Qed.

Lemma builtNodes_ids docs : node_id <$> values (builtNodes docs) = keys (builtNodes docs).
Proof. apply keyed_ids, keyed_builtNodes. Qed.

Lemma elem_of_builtNodes_keys docs k :
  k ∈ keys (builtNodes docs) <-> k ∈ nc_id <$> (docs ≫= nodeCalls).
Proof.
  unfold builtNodes. rewrite keys_foldl. simpl. rewrite elem_of_nil. tauto.
Qed.

Lemma get_builtNodes docs k :
  get (builtNodes docs) k =
  match callsFor k (docs ≫= nodeCalls) with
  | [] => None
  | c :: rest => Some (bumpBy (length rest) (nodeOfCall c))
  end.
Proof. by apply get_foldl_fresh. Qed.

Lemma elem_of_builtNodes_values docs n :
  n ∈ values (builtNodes docs) <-> get (builtNodes docs) (node_id n) = Some n.
Proof.
  unfold values. split.
  - intros ([k n'] & -> & Hin)%list_elem_of_fmap. simpl.
    pose proof (keyed_builtNodes docs) as Hk. unfold keyed in Hk.
    rewrite Forall_forall in Hk. specialize (Hk _ Hin). simpl in Hk. rewrite Hk.
    apply elem_get_Some; [apply NoDup_builtNodes | done].
  - intros Hin%get_Some_elem. apply list_elem_of_fmap. by eexists (_, _).
Qed.

Lemma elem_of_builtEdges docs e :
  e ∈ builtEdges docs <-> e ∈ docs ≫= edgeCalls.
Proof.
  unfold builtEdges. rewrite elem_of_foldl_forward.
  - rewrite elem_of_nil. tauto.
  - constructor.
  - apply allCalls_forward.
Qed.

Lemma NoDup_builtEdges docs : NoDup (builtEdges docs).
Proof. apply NoDup_foldl_putEdge. constructor. Qed.

End built.

(** * The claims *)

(** ** C10: no dangling edges *)

(** C10.  In every graph returned by [buildGlobalGraph], the source id and
    the target id of every edge are ids of returned nodes. *)
Theorem C10_edges_have_endpoints docs g e :
  buildGlobalGraph docs = Normal g ->
  e ∈ edges g ->
  edge_source e ∈ node_id <$> nodes g /\ edge_target e ∈ node_id <$> nodes g.
Proof.
  intros [_ ->]%buildGlobalGraph_inv He. simpl in *.
  rewrite builtNodes_ids.
  apply elem_of_builtEdges, list_elem_of_bind in He as (doc & He & Hdoc).
  destruct (edgeCalls_endpoints doc e He) as [Hs Ht].
  assert (forall k, k ∈ nc_id <$> nodeCalls doc -> k ∈ JSMap.keys (builtNodes docs)) as Hk.
  { intros k (c & -> & Hc)%list_elem_of_fmap.
    apply elem_of_builtNodes_keys, list_elem_of_fmap. exists c. split; [done|].
    apply list_elem_of_bind. eauto. }
  split; by apply Hk.
Qed.

Lemma C10_edges_have_endpoints_witness :
  "author:K. Chen" ∈ node_id <$> nodes graph12 /\ "inst:MIT" ∈ node_id <$> nodes graph12.
Proof.
  apply (C10_edges_have_endpoints [doc1; doc2] graph12
           (mkGraphEdge "author:K. Chen" "inst:MIT" "affiliated_with")).
  - vm_compute. reflexivity.
  - apply list_elem_of_In. vm_compute. tauto.
Defined.

(** ** C3: no self-loop, no duplicate edge *)

(** C3.  A built graph has no edge from a node to itself, and for every
    pair of endpoints (in either order) and every relation it has at most
    one edge.  A self-loop call changes nothing; calling [addEdge] for
    (a, b, r) and then for (b, a, r) adds what the first call alone adds,
    which from an empty array and for distinct a, b is exactly one edge. *)
Theorem C3_no_self_loop_no_duplicate docs g a b r st :
  buildGlobalGraph docs = Normal g ->
  a <> b ->
  (forall e, e ∈ edges g -> edge_source e <> edge_target e)
  /\ (forall a' b' r', (length (filter (joins a' b' r') (edges g)) <= 1)%nat)
  /\ addEdge a a r st = st
  /\ addEdge b a r (addEdge a b r st) = addEdge a b r st
  /\ (st_edges st = [] ->
      st_edges (addEdge b a r (addEdge a b r st)) = [mkGraphEdge a b r]).
Proof.
  intros [_ ->]%buildGlobalGraph_inv Hab. simpl.
  assert (addEdge b a r (addEdge a b r st) = addEdge a b r st) as Hmirror.
  { rewrite (addEdge_putEdge b a). set (st' := addEdge a b r st).
    assert (putEdge (st_edges st') (mkGraphEdge b a r) = st_edges st') as ->;
      [|by destruct st'].
    rewrite putEdge_unfold; simpl. rewrite bool_decide_eq_false_2 by done.
    assert (existsb (sameEdge b a r) (st_edges st') = true) as ->; [|done].
    apply existsb_sameEdge.
    destruct (putEdge_joined (st_edges st) (mkGraphEdge a b r) Hab) as (e' & Hin & Hj).
    exists e'. subst st'. rewrite addEdge_putEdge. simpl. split; [done|].
    unfold joins in *. simpl in Hj. tauto. }
  split_and!.
  - assert (noSelfLoop (builtEdges docs)) as Hn
      by (apply noSelfLoop_foldl; constructor).
    unfold noSelfLoop in Hn. rewrite Forall_forall in Hn. apply Hn.
  - intros a' b' r'.
    assert (atMostOnce (builtEdges docs)) as Hu.
    { apply atMostOnce_foldl. intros ? ? ?. simpl. lia. }
    specialize (Hu a' b' r').
    erewrite (list_filter_iff (joins a' b' r')); [exact Hu|].
    intros e. symmetry. apply sameEdge_joins.
  - unfold addEdge. by rewrite bool_decide_eq_true_2.
  - done.
  - intros Hnil. rewrite Hmirror. unfold addEdge.
    rewrite bool_decide_eq_false_2 by done. by rewrite Hnil.
Qed.

Lemma C3_no_self_loop_no_duplicate_witness :
  st_edges (addEdge "B" "A" "r" (addEdge "A" "B" "r" emptyStore))
  = [mkGraphEdge "A" "B" "r"].
Proof.
  refine (proj2 (proj2 (proj2 (proj2
    (C3_no_self_loop_no_duplicate [doc1; doc2] graph12 "A" "B" "r" emptyStore _ _)))) _).
  - vm_compute. reflexivity.
  - discriminate.
  - reflexivity.
Defined.

(** ** C2: merging nodes *)

Section merging.
Import JSMap JSMapFacts.

Lemma filter_bind {A B} (P : B -> Prop) `{!forall x, Decision (P x)}
    (f : A -> list B) (l : list A) :
  filter P (l ≫= f) = l ≫= (fun a => filter P (f a)).
Proof.
  induction l as [|a l IH]; csimpl; [done|].
  by rewrite filter_app, IH.
Qed.

Lemma filter_fmap {A B} (P : B -> Prop) `{!forall x, Decision (P x)}
    (f : A -> B) (l : list A) :
  filter P (f <$> l) = f <$> filter (fun a => P (f a)) l.
Proof.
  induction l as [|a l IH]; csimpl; [done|].
  rewrite !filter_cons, IH. simpl. by case_decide.
Qed.

(** Among the calls of a document, only its author calls can name an
    author id. *)
Lemma callsFor_author doc name :
  callsFor ("author:" +:+ name) (nodeCalls doc)
  = authorCall <$> filter (fun a => JSString.trim a = name) (authorsOf doc).
Proof.
  unfold callsFor, nodeCalls.
  rewrite filter_cons_False by done.
  rewrite !filter_app, !filter_fmap.
  rewrite (filter_none _ (conceptsOf doc)) by done.
  rewrite (filter_none _ (methodsOf doc)) by done.
  assert (filter (fun c => nc_id c = "author:" +:+ name)
            match truthy (doc_institute doc) with
            | Some institute => [instCall institute]
            | None => []
            end = []) as ->.
  { destruct (truthy (doc_institute doc)); [|done]. by rewrite filter_cons_False. }
  simpl. rewrite !app_nil_r. f_equal.
  apply list_filter_iff. intros a. unfold authorId.
  split; [intros H; cbn in H; by simplify_eq | by intros <-].
Qed.

Lemma allCalls_author docs name :
  callsFor ("author:" +:+ name) (docs ≫= nodeCalls)
  = authorCall <$> filter (fun a => JSString.trim a = name) (docs ≫= authorsOf).
Proof.
  unfold callsFor. rewrite !filter_bind.
  induction docs as [|doc docs IH]; csimpl; [done|].
  rewrite fmap_app, <- IH. f_equal. apply callsFor_author.
Qed.

(** With distinct ids, one node answers to each id. *)
Lemma filter_id_unique (l : list GraphNode) n :
  NoDup (node_id <$> l) -> n ∈ l ->
  filter (fun n' => node_id n' = node_id n) l = [n].
Proof.
  induction l as [|x l IH]; csimpl; intros Hnd Hin.
  - by apply elem_of_nil in Hin.
  - apply NoDup_cons in Hnd as [Hx Hnd].
    apply elem_of_cons in Hin as [-> | Hin].
    + rewrite filter_cons_True by done. f_equal.
      apply filter_none. intros y Hy Heq. apply Hx. rewrite <- Heq.
      by apply list_elem_of_fmap_2.
    + rewrite filter_cons_False; [by apply IH|].
      intros Heq. apply Hx. rewrite Heq. by apply list_elem_of_fmap_2.
Qed.

(** When no document lists the name twice, its author entries are as many
    as the documents that list it. *)
Lemma entries_per_document name docs :
  (forall doc, doc ∈ docs -> (length (authorEntries name [doc]) <= 1)%nat) ->
  length (authorEntries name docs) = length (sharedBy name docs).
Proof.
  unfold authorEntries, sharedBy.
  induction docs as [|doc docs IH]; intros Honce; [done|].
  csimpl. rewrite filter_app, length_app, IH
    by (intros d Hd; apply Honce; by right).
  pose proof (Honce doc ltac:(left)) as Hdoc. csimpl in Hdoc.
  rewrite app_nil_r in Hdoc.
  destruct (filter (fun a => JSString.trim a = name) (authorsOf doc))
    as [|a [|b l]] eqn:Hf; simpl in Hdoc; [| |lia].
  - rewrite filter_cons_False; [done|].
    unfold listsAuthor. intros (a & Ha & Hin)%list_elem_of_fmap.
    assert (a ∈ filter (fun a => JSString.trim a = name) (authorsOf doc)) as Hin'
      by by apply list_elem_of_filter.
    rewrite Hf in Hin'. by apply elem_of_nil in Hin'.
  - rewrite filter_cons_True; [done|].
    unfold listsAuthor.
    assert (a ∈ filter (fun a => JSString.trim a = name) (authorsOf doc)) as Hin
      by (rewrite Hf; left).
    apply list_elem_of_filter in Hin as [<- Hin]. by apply list_elem_of_fmap_2.
Qed.

End merging.

(** C2 as stated fails: two documents share the author name, one of them
    lists it twice, and the AUTHOR node has weight 7, not 6. *)
Lemma C2_two_documents_three_entries :
  length (sharedBy "K. Chen" [docTwice; doc1]) = 2%nat
  /\ (exists n,
        filter (fun n' => node_id n' = "author:" +:+ "K. Chen")
               (nodes (graphOr (buildGlobalGraph [docTwice; doc1]))) = [n]
        /\ node_group n = "AUTHOR"
        /\ node_val n = 7)
  /\ ~ (forall docs g name,
          buildGlobalGraph docs = Normal g ->
          length (sharedBy name docs) = 2%nat ->
          exists n,
            filter (fun n' => node_id n' = "author:" +:+ name) (nodes g) = [n]
            /\ node_val n = 6).
Proof.
  split_and!.
  - reflexivity.
  - eexists. split_and!; reflexivity.
  - intros H.
    destruct (H [docTwice; doc1] _ "K. Chen" eq_refl eq_refl) as (n & Hn & Hval).
    vm_compute in Hn. injection Hn as <-. discriminate Hval.
Qed.

(** C2, as the code has it.  Re-adding an id that is in the map leaves the
    map with the same keys, changes no other entry and no edge, and leaves
    under that id the old node with its weight incremented by exactly 1:
    label, group and metadata are the first-seen ones whatever the new call
    passes.  In a built graph every node carries the label, group and
    metadata of the first call that named its id.  An author name (after
    trimming) that occurs in k + 1 author entries of the documents has
    exactly one node under its id, an AUTHOR node labelled with the name,
    of weight 5 + k; a name that occurs in no entry has no node.  So when
    exactly two documents share the name and no document lists it twice,
    the one AUTHOR node has weight 5 + 1 = 6. *)
Theorem C2_merge_increments_weight st id label group val metadata node docs g :
  JSMap.get (st_nodes st) id = Some node ->
  buildGlobalGraph docs = Normal g ->
  (let st' := addNode id label group val metadata st in
   exists node',
     JSMap.get (st_nodes st') id = Some node'
     /\ node_val node' = node_val node + 1
     /\ node_label node' = node_label node
     /\ node_group node' = node_group node
     /\ node_metadata node' = node_metadata node
     /\ JSMap.keys (st_nodes st') = JSMap.keys (st_nodes st)
     /\ (forall k, k <> id -> JSMap.get (st_nodes st') k = JSMap.get (st_nodes st) k)
     /\ st_edges st' = st_edges st)
  /\ (forall n, n ∈ nodes g ->
        exists c rest,
          callsFor (node_id n) (docs ≫= nodeCalls) = c :: rest
          /\ node_label n = nc_label c
          /\ node_group n = nc_group c
          /\ node_metadata n = nc_metadata c
          /\ node_val n = nc_val c + Z.of_nat (length rest))
  /\ (forall name k,
        length (authorEntries name docs) = S k ->
        exists n,
          filter (fun n' => node_id n' = "author:" +:+ name) (nodes g) = [n]
          /\ node_group n = "AUTHOR"
          /\ node_label n = name
          /\ node_val n = 5 + Z.of_nat k)
  /\ (forall name,
        authorEntries name docs = [] ->
        filter (fun n' => node_id n' = "author:" +:+ name) (nodes g) = [])
  /\ (forall name,
        length (sharedBy name docs) = 2%nat ->
        (forall doc, doc ∈ docs -> (length (authorEntries name [doc]) <= 1)%nat) ->
        exists n,
          filter (fun n' => node_id n' = "author:" +:+ name) (nodes g) = [n]
          /\ node_group n = "AUTHOR"
          /\ node_label n = name
          /\ node_val n = 6).
Proof.
  intros Hget [_ ->]%buildGlobalGraph_inv. simpl.
  assert (forall name k,
            length (authorEntries name docs) = S k ->
            exists n,
              filter (fun n' => node_id n' = "author:" +:+ name)
                     (JSMap.values (builtNodes docs)) = [n]
              /\ node_group n = "AUTHOR"
              /\ node_label n = name
              /\ node_val n = 5 + Z.of_nat k) as Hlaw.
  { intros name k Hk. unfold authorEntries in Hk.
    pose proof (allCalls_author docs name) as Hcalls.
    destruct (filter (fun a => JSString.trim a = name) (docs ≫= authorsOf))
      as [|a1 rest] eqn:Hf; [done|].
    assert (a1 ∈ filter (fun a => JSString.trim a = name) (docs ≫= authorsOf)) as Ha1
      by (rewrite Hf; left).
    apply list_elem_of_filter in Ha1 as [Ha1 _].
    pose proof (get_builtNodes docs ("author:" +:+ name)) as Hn.
    rewrite Hcalls in Hn. csimpl in Hn. rewrite length_fmap in Hn.
    simpl in Hk. injection Hk as Hk. rewrite Hk in Hn.
    set (n := bumpBy k (nodeOfCall (authorCall a1))) in *.
    assert (node_id n = "author:" +:+ name) as Hid by (simpl; by rewrite <- Ha1).
    exists n. split_and!; try done.
    rewrite <- Hid. apply filter_id_unique.
    + rewrite builtNodes_ids. apply NoDup_builtNodes.
    + apply elem_of_builtNodes_values. by rewrite Hid. }
  split_and!.
  - rewrite addNode_putNode. simpl.
    rewrite (putNode_present (st_nodes st) (mkNodeCall id label group val metadata) node)
      by done.
    simpl. exists (bump node). split_and!; try done.
    + apply JSMapFacts.get_set_eq.
    + apply JSMapFacts.keys_set_old. eauto.
    + intros k Hk. by apply JSMapFacts.get_set_ne.
  - intros n Hn%elem_of_builtNodes_values. rewrite get_builtNodes in Hn.
    destruct (callsFor (node_id n) (docs ≫= nodeCalls)) as [|c rest]; [done|].
    injection Hn as <-. by exists c, rest.
  - exact Hlaw.
  - intros name Hnone. apply filter_none. intros n Hn%elem_of_builtNodes_values Hid.
    rewrite Hid, get_builtNodes, allCalls_author in Hn.
    unfold authorEntries in Hnone. by rewrite Hnone in Hn.
  - intros name Htwo Honce. apply (Hlaw name 1%nat).
    rewrite <- Htwo. by apply entries_per_document.
Qed.

Lemma C2_merge_increments_weight_witness :
  (exists n,
     filter (fun n' => node_id n' = "author:" +:+ "K. Chen") (nodes graph12) = [n]
     /\ node_group n = "AUTHOR"
     /\ node_label n = "K. Chen"
     /\ node_val n = 6)
  /\ filter (fun n' => node_id n' = "author:" +:+ "A. Turing") (nodes graph12) = [].
Proof.
  destruct (C2_merge_increments_weight
       (addNode "author:K. Chen" "K. Chen" "AUTHOR" 5 EmptyObject emptyStore)
       "author:K. Chen" "K. Chen  " "PAPER" 10 (PaperMetadata "t" "d" "s" "i")
       (newNode "author:K. Chen" "K. Chen" "AUTHOR" 5 EmptyObject)
       [doc1; doc2] graph12) as (_ & _ & _ & Hnone & Hshared).
  - reflexivity.
  - vm_compute. reflexivity.
  - split.
    + apply Hshared.
      * vm_compute. reflexivity.
      * intros doc Hdoc.
        apply elem_of_cons in Hdoc as [-> | Hdoc];
          [|apply elem_of_cons in Hdoc as [-> | Hdoc]; [|by apply elem_of_nil in Hdoc]];
          vm_compute; lia.
    + apply Hnone. vm_compute. reflexivity.
Defined.

(** ** C4: the order of the documents *)

Section order.
Import JSMap JSMapFacts.

Lemma elem_of_callsFor k cs c : c ∈ callsFor k cs <-> nc_id c = k /\ c ∈ cs.
Proof. unfold callsFor. by rewrite list_elem_of_filter. Qed.

Lemma elem_of_summaries docs k grp v :
  (k, grp, v) ∈ nodeSummary <$> values (builtNodes docs) <->
  exists len v0,
    length (callsFor k (docs ≫= nodeCalls)) = S len
    /\ kindOfId k = Some (grp, v0)
    /\ v = v0 + Z.of_nat len.
Proof.
  split.
  - intros (n & [= -> -> ->] & Hn)%list_elem_of_fmap.
    apply elem_of_builtNodes_values in Hn. rewrite get_builtNodes in Hn.
    destruct (callsFor (node_id n) (docs ≫= nodeCalls)) as [|c rest] eqn:Hcalls; [done|].
    injection Hn as <-. simpl in *.
    assert (c ∈ callsFor (nc_id c) (docs ≫= nodeCalls)) as Hc by (rewrite Hcalls; left).
    apply elem_of_callsFor in Hc as [_ Hc%allCalls_shaped].
    by exists (length rest), (nc_val c).
  - intros (len & v0 & Hlen & Hkind & ->).
    destruct (callsFor k (docs ≫= nodeCalls)) as [|c rest] eqn:Hcalls; [done|].
    injection Hlen as <-.
    assert (c ∈ callsFor k (docs ≫= nodeCalls)) as Hc by (rewrite Hcalls; left).
    apply elem_of_callsFor in Hc as [<- Hc%allCalls_shaped].
    unfold shaped in Hc. rewrite Hc in Hkind. injection Hkind as <- <-.
    apply list_elem_of_fmap. exists (bumpBy (length rest) (nodeOfCall c)).
    split; [done|]. apply elem_of_builtNodes_values. simpl.
    by rewrite get_builtNodes, Hcalls.
Qed.

Lemma NoDup_summaries docs : NoDup (nodeSummary <$> values (builtNodes docs)).
Proof.
  apply (NoDup_fmap_1 (fun s : string * string * Z => s.1.1)).
  rewrite <- list_fmap_compose.
  change (NoDup (node_id <$> values (builtNodes docs))).
  rewrite builtNodes_ids. apply NoDup_builtNodes.
Qed.

Lemma callsFor_length_Permutation k docs docs' :
  docs ≡ₚ docs' ->
  length (callsFor k (docs ≫= nodeCalls)) = length (callsFor k (docs' ≫= nodeCalls)).
Proof. intros Hp. unfold callsFor. by rewrite Hp. Qed.

Lemma summaries_Permutation docs docs' :
  docs ≡ₚ docs' ->
  nodeSummary <$> values (builtNodes docs) ≡ₚ nodeSummary <$> values (builtNodes docs').
Proof.
  intros Hp. apply NoDup_Permutation; [apply NoDup_summaries..|].
  intros [[k grp] v]. rewrite !elem_of_summaries.
  by rewrite (callsFor_length_Permutation k docs docs' Hp).
Qed.

Lemma builtEdges_Permutation docs docs' :
  docs ≡ₚ docs' -> builtEdges docs ≡ₚ builtEdges docs'.
Proof.
  intros Hp. apply NoDup_Permutation; [apply NoDup_builtEdges..|].
  intros e. rewrite !elem_of_builtEdges. by rewrite Hp.
Qed.

End order.

(** C4.  [buildGlobalGraph] is a function of the document list alone (each
    call starts from an empty map and an empty array): builds from the
    same input return the same result.  For a permutation of the list, either
    both builds throw, or both return and the two graphs have the same
    node ids, the same group and weight under every id, and the same
    edges, each up to the order in which the arrays list them. *)
Theorem C4_document_order_irrelevant docs docs' :
  docs ≡ₚ docs' ->
  (docs = docs' -> buildGlobalGraph docs = buildGlobalGraph docs')
  /\
  match buildGlobalGraph docs, buildGlobalGraph docs' with
  | Normal g, Normal g' =>
      node_id <$> nodes g ≡ₚ node_id <$> nodes g'
      /\ nodeSummary <$> nodes g ≡ₚ nodeSummary <$> nodes g'
      /\ edges g ≡ₚ edges g'
  | Throw e, Throw e' => e = e'
  | _, _ => False
  end.
Proof.
  intros Hp. split; [by intros ->|].
  destruct (decide (Forall wellFormed docs)) as [Hwf|Hwf].
  - assert (Forall wellFormed docs') as Hwf' by by rewrite <- Hp.
    rewrite !buildGlobalGraph_Normal by done. simpl.
    pose proof (summaries_Permutation docs docs' Hp) as Hs.
    split_and!; [|done|by apply builtEdges_Permutation].
    apply (fmap_Permutation (fun s : string * string * Z => s.1.1)) in Hs.
    by rewrite <- !list_fmap_compose in Hs.
  - assert (~ Forall wellFormed docs') as Hwf' by by rewrite <- Hp.
    by rewrite !buildGlobalGraph_Throw.
Qed.

Lemma C4_document_order_irrelevant_witness :
  ([doc1; doc2] = [doc2; doc1] -> buildGlobalGraph [doc1; doc2] = buildGlobalGraph [doc2; doc1])
  /\
  match buildGlobalGraph [doc1; doc2], buildGlobalGraph [doc2; doc1] with
  | Normal g, Normal g' =>
      node_id <$> nodes g ≡ₚ node_id <$> nodes g'
      /\ nodeSummary <$> nodes g ≡ₚ nodeSummary <$> nodes g'
      /\ edges g ≡ₚ edges g'
  | Throw e, Throw e' => e = e'
  | _, _ => False
  end.
Proof.
  apply (C4_document_order_irrelevant [doc1; doc2] [doc2; doc1]).
  apply perm_swap.
Defined.

(** The label of a node is the first-seen one, so it does follow the order
    of the documents. *)
Example label_follows_order :
  let d := mkDoc "d" "T" "2024" "S" (Some []) None (Some ["GNN"]) (Some []) in
  let d' := mkDoc "e" "U" "2024" "S" (Some []) None (Some ["gnn"]) (Some []) in
  (node_label <$> nodes (graphOr (buildGlobalGraph [d; d']))) !! 1%nat = Some "GNN"
  /\ (node_label <$> nodes (graphOr (buildGlobalGraph [d'; d]))) !! 1%nat = Some "Gnn".
Proof. split; reflexivity. Qed.

(** ** C5: malformed documents *)

Section malformed.
Variable institute : option string.
Hypothesis falsy : truthy institute = None.

Lemma nodeCalls_withInstitute doc c :
  c ∈ nodeCalls (withInstitute institute doc) -> c ∈ nodeCalls doc.
Proof.
  unfold nodeCalls, withInstitute, paperCall, paperId, authorsOf, conceptsOf, methodsOf.
  cbn [doc_id doc_title doc_publicationDate doc_summary doc_authors doc_institute
       doc_keyConcepts doc_methods]. rewrite falsy.
  rewrite !elem_of_cons, !elem_of_app. rewrite elem_of_nil. tauto.
Qed.

Lemma edgeCalls_withInstitute doc e :
  e ∈ edgeCalls (withInstitute institute doc) -> e ∈ edgeCalls doc.
Proof.
  unfold edgeCalls, withInstitute, paperId, authorsOf, conceptsOf, methodsOf.
  cbn [doc_id doc_title doc_publicationDate doc_summary doc_authors doc_institute
       doc_keyConcepts doc_methods]. rewrite falsy.
  rewrite !elem_of_app. rewrite elem_of_nil. tauto.
Qed.

Lemma wellFormed_withInstitute doc :
  wellFormed doc -> wellFormed (withInstitute institute doc).
Proof. done. Qed.

End malformed.

(** C5, as the code has it.  The build returns a graph whenever every
    document has its [authors], [keyConcepts] and [methods] arrays.  The
    institute may be [null] or the empty string: giving every document
    such an institute still returns a graph, and it is a subgraph of the
    original one (no new node id, no new edge). *)
Theorem C5_well_formed_documents_build docs institute :
  Forall wellFormed docs ->
  truthy institute = None ->
  exists g g',
    buildGlobalGraph docs = Normal g
    /\ buildGlobalGraph (withInstitute institute <$> docs) = Normal g'
    /\ (forall k, k ∈ node_id <$> nodes g' -> k ∈ node_id <$> nodes g)
    /\ (forall e, e ∈ edges g' -> e ∈ edges g).
Proof.
  intros Hwf Hfalsy.
  assert (Forall wellFormed (withInstitute institute <$> docs)) as Hwf'.
  { apply Forall_fmap. eapply Forall_impl; [done|]. apply wellFormed_withInstitute. }
  rewrite !buildGlobalGraph_Normal by done.
  eexists _, _. split_and!; [done..| |]; simpl.
  - intros k. rewrite !builtNodes_ids, !elem_of_builtNodes_keys.
    intros (c & -> & (doc' & Hc & (doc & -> & Hdoc)%list_elem_of_fmap)%list_elem_of_bind)
      %list_elem_of_fmap.
    apply list_elem_of_fmap. exists c. split; [done|].
    apply list_elem_of_bind. exists doc. split; [|done].
    by apply (nodeCalls_withInstitute institute).
  - intros e. rewrite !elem_of_builtEdges.
    intros (doc' & He & (doc & -> & Hdoc)%list_elem_of_fmap)%list_elem_of_bind.
    apply list_elem_of_bind. exists doc. split; [|done].
    by apply (edgeCalls_withInstitute institute).
Qed.

Lemma C5_well_formed_documents_build_witness :
  exists g g',
    buildGlobalGraph [doc1; doc2] = Normal g
    /\ buildGlobalGraph (withInstitute (Some "") <$> [doc1; doc2]) = Normal g'
    /\ (forall k, k ∈ node_id <$> nodes g' -> k ∈ node_id <$> nodes g)
    /\ (forall e, e ∈ edges g' -> e ∈ edges g).
Proof.
  apply (C5_well_formed_documents_build [doc1; doc2] (Some "")).
  - repeat constructor; vm_compute; eauto.
  - reflexivity.
Defined.

(** C5 as stated fails: a document whose [authors] array is missing makes
    the build throw. *)
Lemma C5_missing_array_throws :
  buildGlobalGraph [docNoAuthors] = Throw TypeError
  /\ ~ (forall docs, exists g, buildGlobalGraph docs = Normal g).
Proof.
  split; [reflexivity|].
  intros H. destruct (H [docNoAuthors]) as [g Hg]. vm_compute in Hg. discriminate.
Qed.

(** The build throws exactly on the lists with a malformed document. *)
Lemma buildGlobalGraph_throws_iff docs :
  buildGlobalGraph docs = Throw TypeError <-> ~ Forall wellFormed docs.
Proof.
  split.
  - intros Ht Hwf. by rewrite buildGlobalGraph_Normal in Ht.
  - apply buildGlobalGraph_Throw.
Qed.

(** ** C6: truncation to five concepts and three methods *)

Section truncation.
Import JSMap JSMapFacts.

Lemma processDocument_truncated doc : processDocument (truncated doc) = processDocument doc.
Proof.
  destruct doc as [id title date summary authors institute concepts methods].
  unfold processDocument, truncated; simpl.
  destruct concepts as [cs|], methods as [ms|]; simpl; try done;
    unfold mbind, Builder_bind, mret, Builder_ret; by rewrite ?take_take.
Qed.

Lemma forEach_fmap {A B} (f : A -> B) (l : list A) body :
  forEach (f <$> l) body = forEach l (fun a => body (f a)).
Proof. induction l as [|a l IH]; csimpl; [done|]. by rewrite IH. Qed.

Lemma forEach_ext {A} (l : list A) (body body' : A -> Builder unit) :
  (forall a, body a = body' a) -> forEach l body = forEach l body'.
Proof. intros Hb. induction l as [|a l IH]; simpl; [done|]. by rewrite Hb, IH. Qed.

Lemma buildGlobalGraph_truncated docs :
  buildGlobalGraph (truncated <$> docs) = buildGlobalGraph docs.
Proof.
  unfold buildGlobalGraph. rewrite forEach_fmap.
  by rewrite (forEach_ext docs _ processDocument processDocument_truncated).
Qed.

(** One kind of node: its group, its calls and the strings it comes from. *)
Section kind.
Variables (grp : string) (idOf : string -> string) (callOf : string -> NodeCall)
            (sel : ResearchDocument -> list string).
Hypothesis callOf_id : forall x, nc_id (callOf x) = idOf x.
Hypothesis callOf_group : forall x, nc_group (callOf x) = grp.
Hypothesis callOf_in : forall doc x, x ∈ sel doc -> callOf x ∈ nodeCalls doc.
Hypothesis group_inv : forall doc c,
    c ∈ nodeCalls doc -> nc_group c = grp -> exists x, x ∈ sel doc /\ c = callOf x.

Lemma same_id_same_group docs c c' :
  c ∈ docs ≫= nodeCalls -> c' ∈ docs ≫= nodeCalls ->
  nc_id c = nc_id c' -> nc_group c = nc_group c'.
Proof.
  intros Hc%allCalls_shaped Hc'%allCalls_shaped Hid.
  unfold shaped in *. rewrite Hid in Hc. congruence.
Qed.

Lemma kind_nodes docs :
  node_id <$> filter (fun n => node_group n = grp) (values (builtNodes docs))
  ≡ₚ remove_dups (docs ≫= (fun doc => idOf <$> sel doc)).
Proof.
  apply NoDup_Permutation.
  - eapply sublist_NoDup; [|apply fmap_sublist, sublist_filter].
    rewrite builtNodes_ids. apply NoDup_builtNodes.
  - apply NoDup_remove_dups.
  - intros k. rewrite elem_of_remove_dups, list_elem_of_fmap, list_elem_of_bind.
    split.
    + intros (n & -> & [Hg Hn%elem_of_builtNodes_values]%list_elem_of_filter).
      rewrite get_builtNodes in Hn.
      destruct (callsFor (node_id n) (docs ≫= nodeCalls)) as [|c rest] eqn:Hcalls; [done|].
      injection Hn as <-. simpl in *.
      assert (c ∈ callsFor (nc_id c) (docs ≫= nodeCalls)) as Hc by (rewrite Hcalls; left).
      apply elem_of_callsFor in Hc as [_ (doc & Hc & Hdoc)%list_elem_of_bind].
      destruct (group_inv doc c Hc Hg) as (x & Hx & ->).
      exists doc. split; [|done]. rewrite callOf_id. by apply list_elem_of_fmap_2.
    + intros (doc & (x & -> & Hx)%list_elem_of_fmap & Hdoc).
      assert (callOf x ∈ docs ≫= nodeCalls) as Hcall.
      { apply list_elem_of_bind. exists doc. split; [by apply callOf_in | done]. }
      assert (callOf x ∈ callsFor (idOf x) (docs ≫= nodeCalls)) as Hin.
      { apply elem_of_callsFor. split; [apply callOf_id | done]. }
      destruct (callsFor (idOf x) (docs ≫= nodeCalls)) as [|c rest] eqn:Hcalls.
      { by apply elem_of_nil in Hin. }
      assert (c ∈ callsFor (idOf x) (docs ≫= nodeCalls)) as Hc by (rewrite Hcalls; left).
      apply elem_of_callsFor in Hc as [Hid Hc].
      exists (bumpBy (length rest) (nodeOfCall c)). split; [done|].
      apply list_elem_of_filter. split.
      * simpl. rewrite <- (callOf_group x).
        apply (same_id_same_group docs); [done..|]. by rewrite callOf_id.
      * apply elem_of_builtNodes_values. simpl.
        by rewrite get_builtNodes, Hid, Hcalls.
Qed.
End kind.

(** One kind of edge: its relation and its calls. *)
Section relation.
Variables (rel : string) (edgeOf : ResearchDocument -> string -> GraphEdge)
            (sel : ResearchDocument -> list string).
Hypothesis edgeOf_relation : forall doc x, edge_relation (edgeOf doc x) = rel.
Hypothesis edgeOf_in : forall doc x, x ∈ sel doc -> edgeOf doc x ∈ edgeCalls doc.
Hypothesis relation_inv : forall doc e,
    e ∈ edgeCalls doc -> edge_relation e = rel -> exists x, x ∈ sel doc /\ e = edgeOf doc x.

Lemma relation_edges docs :
  filter (fun e => edge_relation e = rel) (builtEdges docs)
  ≡ₚ remove_dups (docs ≫= (fun doc => edgeOf doc <$> sel doc)).
Proof.
  apply NoDup_Permutation.
  - apply NoDup_filter, NoDup_builtEdges.
  - apply NoDup_remove_dups.
  - intros e.
    rewrite elem_of_remove_dups, list_elem_of_filter, elem_of_builtEdges,
      !list_elem_of_bind.
    split.
    + intros (Hrel & doc & He & Hdoc).
      destruct (relation_inv doc e He Hrel) as (x & Hx & ->).
      exists doc. split; [by apply list_elem_of_fmap_2 | done].
    + intros (doc & (x & -> & Hx)%list_elem_of_fmap & Hdoc).
      split; [apply edgeOf_relation|]. exists doc. split; [by apply edgeOf_in | done].
Qed.
End relation.

Lemma conceptCall_inv doc c :
  c ∈ nodeCalls doc -> nc_group c = "CONCEPT" ->
  exists x, x ∈ conceptsOf doc /\ c = conceptCall x.
Proof.
  unfold nodeCalls.
  rewrite elem_of_cons, !elem_of_app, !list_elem_of_fmap.
  intros [-> | [(a & -> & _) | [Hi | [(a & -> & Ha) | (a & -> & _)]]]]; try done.
  - destruct (truthy (doc_institute doc)); [|by apply elem_of_nil in Hi].
    by apply list_elem_of_singleton in Hi as ->.
  - eauto.
Qed.

Lemma methodCall_inv doc c :
  c ∈ nodeCalls doc -> nc_group c = "METHOD" ->
  exists x, x ∈ methodsOf doc /\ c = methodCall x.
Proof.
  unfold nodeCalls.
  rewrite elem_of_cons, !elem_of_app, !list_elem_of_fmap.
  intros [-> | [(a & -> & _) | [Hi | [(a & -> & _) | (a & -> & Ha)]]]]; try done.
  - destruct (truthy (doc_institute doc)); [|by apply elem_of_nil in Hi].
    by apply list_elem_of_singleton in Hi as ->.
  - eauto.
Qed.

Lemma conceptCall_in doc x : x ∈ conceptsOf doc -> conceptCall x ∈ nodeCalls doc.
Proof.
  intros Hx. unfold nodeCalls. right. rewrite !elem_of_app. do 2 right. left.
  by apply list_elem_of_fmap_2.
Qed.

Lemma methodCall_in doc x : x ∈ methodsOf doc -> methodCall x ∈ nodeCalls doc.
Proof.
  intros Hx. unfold nodeCalls. right. rewrite !elem_of_app. do 3 right.
  by apply list_elem_of_fmap_2.
Qed.

Lemma discussesEdge_inv doc e :
  e ∈ edgeCalls doc -> edge_relation e = "discusses" ->
  exists x, x ∈ conceptsOf doc /\ e = discussesEdge doc x.
Proof.
  unfold edgeCalls.
  rewrite !elem_of_app, !list_elem_of_fmap.
  intros [(a & -> & _) | [Hi | [(a & -> & Ha) | (a & -> & _)]]]; try done.
  - destruct (truthy (doc_institute doc)); [|by apply elem_of_nil in Hi].
    by apply elem_of_cons in Hi as [-> | (a & -> & _)%list_elem_of_fmap].
  - eauto.
Qed.

Lemma usesMethodEdge_inv doc e :
  e ∈ edgeCalls doc -> edge_relation e = "uses_method" ->
  exists x, x ∈ methodsOf doc /\ e = usesMethodEdge doc x.
Proof.
  unfold edgeCalls.
  rewrite !elem_of_app, !list_elem_of_fmap.
  intros [(a & -> & _) | [Hi | [(a & -> & _) | (a & -> & Ha)]]]; try done.
  - destruct (truthy (doc_institute doc)); [|by apply elem_of_nil in Hi].
    by apply elem_of_cons in Hi as [-> | (a & -> & _)%list_elem_of_fmap].
  - eauto.
Qed.

Lemma discussesEdge_in doc x : x ∈ conceptsOf doc -> discussesEdge doc x ∈ edgeCalls doc.
Proof.
  intros Hx. unfold edgeCalls. rewrite !elem_of_app. do 2 right. left.
  by apply (list_elem_of_fmap_2 (discussesEdge doc)).
Qed.

Lemma usesMethodEdge_in doc x : x ∈ methodsOf doc -> usesMethodEdge doc x ∈ edgeCalls doc.
Proof.
  intros Hx. unfold edgeCalls. rewrite !elem_of_app. do 3 right.
  by apply (list_elem_of_fmap_2 (usesMethodEdge doc)).
Qed.

Lemma remove_dups_NoDup_length {A} `{EqDecision A} (l : list A) :
  NoDup l -> length (remove_dups l) = length l.
Proof.
  intros Hnd. apply Permutation_length, NoDup_Permutation;
    [apply NoDup_remove_dups | done | apply elem_of_remove_dups].
Qed.

End truncation.

(** C6 as stated fails: of the first five of eight key concepts, two have
    the same id, and the document contributes four CONCEPT nodes and four
    edges, not five. *)
Lemma C6_same_key_concepts_collapse :
  (length <$> doc_keyConcepts docEight) = Some 8%nat
  /\ length (filter (fun n => node_group n = "CONCEPT")
               (nodes (graphOr (buildGlobalGraph [docEight])))) = 4%nat
  /\ length (filter (fun e => edge_relation e = "discusses")
               (edges (graphOr (buildGlobalGraph [docEight])))) = 4%nat
  /\ ~ (forall doc cs g,
          doc_keyConcepts doc = Some cs -> length cs = 8%nat ->
          buildGlobalGraph [doc] = Normal g ->
          length (filter (fun n => node_group n = "CONCEPT") (nodes g)) = 5%nat).
Proof.
  split_and!; [reflexivity..|].
  intros H.
  specialize (H docEight _ _ eq_refl eq_refl eq_refl). vm_compute in H. discriminate.
Qed.

Global Instance mkGraphEdge_inj s r : Inj (=) (=) (fun t => mkGraphEdge s t r).
Proof. by intros t t' [= ->]. Qed.

(** C6, as the code has it.  Cutting every document to its first 5 key
    concepts and first 3 methods does not change the built graph.  In the
    graph of one document, the CONCEPT nodes are those of the distinct ids
    of its first 5 key concepts and the [discusses] edges lead from the
    paper to exactly these ids; likewise the METHOD nodes and the
    [uses_method] edges for its first 3 methods.  So a document with at
    least 5 key concepts whose first 5 have pairwise distinct ids gives
    exactly 5 CONCEPT nodes and 5 [discusses] edges, and one with at least
    3 methods whose first 3 have distinct ids gives exactly 3 METHOD nodes
    and 3 [uses_method] edges. *)
Theorem C6_first_five_concepts_three_methods docs doc cs ms g :
  doc_keyConcepts doc = Some cs ->
  doc_methods doc = Some ms ->
  buildGlobalGraph [doc] = Normal g ->
  buildGlobalGraph (truncated <$> docs) = buildGlobalGraph docs
  /\ node_id <$> filter (fun n => node_group n = "CONCEPT") (nodes g)
     ≡ₚ remove_dups (conceptId <$> take 5 cs)
  /\ filter (fun e => edge_relation e = "discusses") (edges g)
     ≡ₚ (fun k => mkGraphEdge (paperId doc) k "discusses")
          <$> remove_dups (conceptId <$> take 5 cs)
  /\ node_id <$> filter (fun n => node_group n = "METHOD") (nodes g)
     ≡ₚ remove_dups (methodId <$> take 3 ms)
  /\ filter (fun e => edge_relation e = "uses_method") (edges g)
     ≡ₚ (fun k => mkGraphEdge (paperId doc) k "uses_method")
          <$> remove_dups (methodId <$> take 3 ms)
  /\ (NoDup (conceptId <$> take 5 cs) -> (5 <= length cs)%nat ->
      length (filter (fun n => node_group n = "CONCEPT") (nodes g)) = 5%nat
      /\ length (filter (fun e => edge_relation e = "discusses") (edges g)) = 5%nat)
  /\ (NoDup (methodId <$> take 3 ms) -> (3 <= length ms)%nat ->
      length (filter (fun n => node_group n = "METHOD") (nodes g)) = 3%nat
      /\ length (filter (fun e => edge_relation e = "uses_method") (edges g)) = 3%nat).
Proof.
  intros Hcs Hms [_ ->]%buildGlobalGraph_inv. simpl.
  assert (conceptsOf doc = take 5 cs) as Hsel by (unfold conceptsOf; by rewrite Hcs).
  assert (methodsOf doc = take 3 ms) as Hsel' by (unfold methodsOf; by rewrite Hms).
  pose proof (kind_nodes "CONCEPT" conceptId conceptCall conceptsOf
                (fun _ => eq_refl) (fun _ => eq_refl) conceptCall_in conceptCall_inv [doc])
    as Hcn.
  pose proof (kind_nodes "METHOD" methodId methodCall methodsOf
                (fun _ => eq_refl) (fun _ => eq_refl) methodCall_in methodCall_inv [doc])
    as Hmn.
  pose proof (relation_edges "discusses" discussesEdge conceptsOf
                (fun _ _ => eq_refl) discussesEdge_in discussesEdge_inv [doc]) as Hce.
  pose proof (relation_edges "uses_method" usesMethodEdge methodsOf
                (fun _ _ => eq_refl) usesMethodEdge_in usesMethodEdge_inv [doc]) as Hme.
  simpl in Hcn, Hmn, Hce, Hme. rewrite app_nil_r in Hcn, Hmn, Hce, Hme.
  rewrite Hsel in Hcn, Hce. rewrite Hsel' in Hmn, Hme.
  assert (forall (l : list string) s r (f : string -> string),
            remove_dups ((fun x => mkGraphEdge s (f x) r) <$> l)
            ≡ₚ (fun k => mkGraphEdge s k r) <$> remove_dups (f <$> l)) as Hdups.
  { intros l s r f. apply NoDup_Permutation.
    - apply NoDup_remove_dups.
    - apply (NoDup_fmap_2 _), NoDup_remove_dups.
    - intros e. rewrite elem_of_remove_dups, !list_elem_of_fmap.
      setoid_rewrite elem_of_remove_dups. setoid_rewrite list_elem_of_fmap.
      split.
      + intros (x & -> & Hx). eauto.
      + intros (k & -> & x & -> & Hx). eauto. }
  unfold discussesEdge in Hce. unfold usesMethodEdge in Hme.
  rewrite Hdups in Hce, Hme.
  split_and!; [apply buildGlobalGraph_truncated | done.. | |].
  - intros Hnd Hlen.
    apply Permutation_length in Hcn, Hce.
    rewrite length_fmap, remove_dups_NoDup_length, length_fmap, length_take_le
      in Hcn by done.
    rewrite length_fmap, remove_dups_NoDup_length, length_fmap, length_take_le
      in Hce by done.
    done.
  - intros Hnd Hlen.
    apply Permutation_length in Hmn, Hme.
    rewrite length_fmap, remove_dups_NoDup_length, length_fmap, length_take_le
      in Hmn by done.
    rewrite length_fmap, remove_dups_NoDup_length, length_fmap, length_take_le
      in Hme by done.
    done.
Qed.

Lemma C6_first_five_concepts_three_methods_witness :
  (length (filter (fun n => node_group n = "CONCEPT")
             (nodes (graphOr (buildGlobalGraph [docFull])))) = 5%nat
   /\ length (filter (fun e => edge_relation e = "discusses")
                (edges (graphOr (buildGlobalGraph [docFull])))) = 5%nat)
  /\ (length (filter (fun n => node_group n = "METHOD")
                (nodes (graphOr (buildGlobalGraph [docFull])))) = 3%nat
      /\ length (filter (fun e => edge_relation e = "uses_method")
                   (edges (graphOr (buildGlobalGraph [docFull])))) = 3%nat).
Proof.
  pose proof (C6_first_five_concepts_three_methods [docEight; docFull] docFull
                ["a"; "b"; "c"; "d"; "e"; "f"; "g"; "h"] ["m1"; "m2"; "m3"; "m4"; "m5"]
                (graphOr (buildGlobalGraph [docFull])) eq_refl eq_refl eq_refl)
    as (_ & _ & _ & _ & _ & H5 & H3).
  split.
  - apply H5; [|simpl; lia].
    apply (bool_decide_unpack _). vm_compute. exact I.
  - apply H3; [|simpl; lia].
    apply (bool_decide_unpack _). vm_compute. exact I.
Defined.

(** ** C1: the end-to-end scenario *)

Section scenario.
Import JSMap.
Variables (id1 title1 date1 summary1 id2 title2 date2 summary2 : string).
Hypothesis distinct : id1 <> id2.

Lemma get_cons_eq {V} (m : JSMap.t V) k v : get ((k, v) :: m) k = Some v.
Proof. simpl. by rewrite decide_True. Qed.

Lemma get_cons_ne {V} (m : JSMap.t V) k k' v : k' <> k -> get ((k', v) :: m) k = get m k.
Proof. intros. simpl. by rewrite decide_False. Qed.

Lemma set_cons_eq {V} (m : JSMap.t V) k v v' : set ((k, v) :: m) k v' = (k, v') :: m.
Proof. simpl. by rewrite decide_True. Qed.

Lemma set_cons_ne {V} (m : JSMap.t V) k k' v v' :
  k' <> k -> set ((k', v) :: m) k v' = (k', v) :: set m k v'.
Proof. intros. simpl. by rewrite decide_False. Qed.

Lemma paper_ids_distinct : "paper:" +:+ id1 <> "paper:" +:+ id2.
Proof. intros H. cbn in H. by simplify_eq. Qed.

Ltac ids_differ :=
  first [ apply paper_ids_distinct
        | apply not_eq_sym, paper_ids_distinct
        | let H := fresh in intros H; cbn in H; by simplify_eq ].
Ltac get_key :=
  cbn [nc_id];
  repeat (rewrite get_cons_ne by ids_differ);
  first [ reflexivity | apply get_cons_eq ].
Ltac set_key :=
  cbn [nc_id];
  repeat (rewrite set_cons_ne by ids_differ);
  first [ rewrite set_cons_eq | cbn [set] ].
Ltac put_fresh :=
  match goal with
  | |- context [putNode ?m ?c] =>
      lazymatch m with
      | putNode _ _ => fail
      | _ => rewrite (putNode_fresh m c) by get_key; set_key
      end
  end.
Ltac put_present :=
  match goal with
  | |- context [putNode ?m ?c] =>
      lazymatch m with
      | putNode _ _ => fail
      | _ => erewrite (putNode_present m c) by get_key; set_key
      end
  end.

Lemma scenario_nodes :
  builtNodes [scenarioDoc id1 title1 date1 summary1; scenarioDoc id2 title2 date2 summary2] =
  [ ("paper:" +:+ id1,
     newNode ("paper:" +:+ id1) title1 "PAPER" 10 (PaperMetadata title1 date1 summary1 id1));
    ("author:K. Chen", newNode "author:K. Chen" "K. Chen" "AUTHOR" 6 EmptyObject);
    ("inst:MIT", newNode "inst:MIT" "MIT" "INSTITUTE" 7 EmptyObject);
    ("concept:gnn", newNode "concept:gnn" "GNN" "CONCEPT" 4 EmptyObject);
    ("paper:" +:+ id2,
     newNode ("paper:" +:+ id2) title2 "PAPER" 10 (PaperMetadata title2 date2 summary2 id2)) ].
Proof.
  unfold builtNodes. cbn -[String.append putNode].
  change (paperCall (scenarioDoc id1 title1 date1 summary1)) with
    (mkNodeCall ("paper:" +:+ id1) title1 "PAPER" 10
       (PaperMetadata title1 date1 summary1 id1)).
  change (paperCall (scenarioDoc id2 title2 date2 summary2)) with
    (mkNodeCall ("paper:" +:+ id2) title2 "PAPER" 10
       (PaperMetadata title2 date2 summary2 id2)).
  change (authorCall "K. Chen") with
    (mkNodeCall "author:K. Chen" "K. Chen" "AUTHOR" 5 EmptyObject).
  change (instCall "MIT") with (mkNodeCall "inst:MIT" "MIT" "INSTITUTE" 6 EmptyObject).
  change (conceptCall "GNN") with (mkNodeCall "concept:gnn" "GNN" "CONCEPT" 3 EmptyObject).
  put_fresh. put_fresh. put_fresh. put_fresh. put_fresh.
  put_present. put_present. put_present.
  reflexivity.
Qed.

Lemma putEdge_new es e :
  edge_source e <> edge_target e ->
  Forall (fun e' => ~ joins (edge_source e) (edge_target e) (edge_relation e) e') es ->
  putEdge es e = es ++ [e].
Proof.
  intros Hne Hes. rewrite putEdge_unfold, bool_decide_eq_false_2 by done.
  destruct (existsb _ es) eqn:Hex; [|done].
  apply existsb_sameEdge in Hex as (e' & Hin & Hj).
  rewrite Forall_forall in Hes. by destruct (Hes e' Hin).
Qed.

Lemma putEdge_old es e :
  edge_source e <> edge_target e -> e ∈ es -> putEdge es e = es.
Proof.
  intros Hne Hin. rewrite putEdge_unfold, bool_decide_eq_false_2 by done.
  assert (existsb (sameEdge (edge_source e) (edge_target e) (edge_relation e)) es = true)
    as ->; [|done].
  apply existsb_sameEdge. exists e. split; [done|]. unfold joins. tauto.
Qed.

Ltac not_joined :=
  let H := fresh in
  unfold joins; cbn [edge_source edge_target edge_relation];
  intros H; cbn in H; destruct H as [? [[? ?] | [? ?]]]; simplify_eq.
Ltac edge_new :=
  match goal with
  | |- context [putEdge ?es ?e] =>
      lazymatch es with
      | putEdge _ _ => fail
      | _ => rewrite (putEdge_new es e) by
               (first [ ids_differ | repeat (constructor; [not_joined|]); constructor ]);
             cbn [app]
      end
  end.
Ltac edge_old :=
  match goal with
  | |- context [putEdge ?es ?e] =>
      lazymatch es with
      | putEdge _ _ => fail
      | _ => rewrite (putEdge_old es e) by
               (first [ ids_differ | apply list_elem_of_In; cbn [In]; tauto ])
      end
  end.

Lemma scenario_edges :
  builtEdges [scenarioDoc id1 title1 date1 summary1; scenarioDoc id2 title2 date2 summary2] =
  [ mkGraphEdge ("paper:" +:+ id1) "author:K. Chen" "written_by";
    mkGraphEdge ("paper:" +:+ id1) "inst:MIT" "published_at";
    mkGraphEdge "author:K. Chen" "inst:MIT" "affiliated_with";
    mkGraphEdge ("paper:" +:+ id1) "concept:gnn" "discusses";
    mkGraphEdge ("paper:" +:+ id2) "author:K. Chen" "written_by";
    mkGraphEdge ("paper:" +:+ id2) "inst:MIT" "published_at";
    mkGraphEdge ("paper:" +:+ id2) "concept:gnn" "discusses" ].
Proof.
  unfold builtEdges. cbn -[String.append putEdge].
  change (paperId (scenarioDoc id1 title1 date1 summary1)) with ("paper:" +:+ id1).
  change (paperId (scenarioDoc id2 title2 date2 summary2)) with ("paper:" +:+ id2).
  change (authorId "K. Chen") with "author:K. Chen".
  change (instId "MIT") with "inst:MIT".
  change (conceptId "GNN") with "concept:gnn".
  edge_new. edge_new. edge_new. edge_new. edge_new. edge_new. edge_old. edge_new.
  reflexivity.
Qed.

Lemma scenario_graph :
  buildGlobalGraph [scenarioDoc id1 title1 date1 summary1; scenarioDoc id2 title2 date2 summary2] =
  Normal {| nodes := values (builtNodes [scenarioDoc id1 title1 date1 summary1; scenarioDoc id2 title2 date2 summary2]); edges := builtEdges [scenarioDoc id1 title1 date1 summary1; scenarioDoc id2 title2 date2 summary2] |}.
Proof.
  apply buildGlobalGraph_Normal. repeat constructor; simpl; eauto.
Qed.
End scenario.

(** C1 as stated fails: the scenario's graph does not have the weights
    7, 8 and 5. *)
Lemma C1_scenario_weights_not_7_8_5 :
  buildGlobalGraph [doc1; doc2] = Normal graph12 /\ ~ scenarioShape 7 8 5 graph12.
Proof.
  split; [reflexivity|].
  intros (_ & _ & Hauthor & _). vm_compute in Hauthor. discriminate.
Qed.

(** C1, as the code has it.  The two documents of the scenario, under any
    two distinct ids, build a graph of exactly 2 PAPER nodes, 1 AUTHOR node
    of weight 6, 1 INSTITUTE node of weight 7 and 1 CONCEPT node of weight
    4 (base weight plus the one merge), with exactly the edges
    2 x written_by, 2 x published_at, 1 x affiliated_with and
    2 x discusses. *)
Theorem C1_scenario_graph id1 title1 date1 summary1 id2 title2 date2 summary2 :
  id1 <> id2 ->
  exists g,
    buildGlobalGraph [scenarioDoc id1 title1 date1 summary1;
                      scenarioDoc id2 title2 date2 summary2] = Normal g
    /\ scenarioShape 6 7 4 g
    /\ nodeSummary <$> nodes g =
       [ ("paper:" +:+ id1, "PAPER", 10); ("author:K. Chen", "AUTHOR", 6);
         ("inst:MIT", "INSTITUTE", 7); ("concept:gnn", "CONCEPT", 4);
         ("paper:" +:+ id2, "PAPER", 10) ]
    /\ edges g =
       [ mkGraphEdge ("paper:" +:+ id1) "author:K. Chen" "written_by";
         mkGraphEdge ("paper:" +:+ id1) "inst:MIT" "published_at";
         mkGraphEdge "author:K. Chen" "inst:MIT" "affiliated_with";
         mkGraphEdge ("paper:" +:+ id1) "concept:gnn" "discusses";
         mkGraphEdge ("paper:" +:+ id2) "author:K. Chen" "written_by";
         mkGraphEdge ("paper:" +:+ id2) "inst:MIT" "published_at";
         mkGraphEdge ("paper:" +:+ id2) "concept:gnn" "discusses" ].
Proof.
  intros Hne. eexists. split; [apply scenario_graph|].
  rewrite (scenario_nodes _ title1 date1 summary1 _ title2 date2 summary2 Hne).
  rewrite (scenario_edges _ title1 date1 summary1 _ title2 date2 summary2 Hne).
  split_and!; [split_and!|..]; reflexivity.
Qed.

Lemma C1_scenario_graph_witness :
  exists g, buildGlobalGraph [doc1; doc2] = Normal g /\ scenarioShape 6 7 4 g.
Proof.
  destruct (C1_scenario_graph "d1" "First paper" "2024" "Summary one"
              "d2" "Second paper" "2025" "Summary two")
    as (g & Hg & Hshape & _).
  - discriminate.
  - exists g. split; [exact Hg | exact Hshape].
Defined.

(** ** C8: node radius *)

Lemma getRadius_base_increment group val :
  0 <= val -> getRadius group val = radiusBase group + Z.min val (maxIncrement group).
Proof.
  intros Hval. unfold getRadius, radiusBase, maxIncrement.
  repeat case_decide; lia.
Qed.

Lemma getRadius_mono group val val' :
  val <= val' -> getRadius group val <= getRadius group val'.
Proof. intros Hle. unfold getRadius. repeat case_decide; lia. Qed.

(** C8 as stated fails for one group: the radius of an INSTITUTE node is
    10 whatever its weight, so it does not grow with the weight. *)
Lemma C8_institute_radius_is_constant :
  getRadius "INSTITUTE" 6 = 10
  /\ getRadius "INSTITUTE" 600 = 10
  /\ (forall val val', getRadius "INSTITUTE" val = getRadius "INSTITUTE" val')
  /\ ~ (forall group, exists val val',
          0 <= val < val' /\ getRadius group val < getRadius group val').
Proof.
  split_and!; try reflexivity.
  intros H. destruct (H "INSTITUTE") as (val & val' & _ & Hlt).
  change (getRadius "INSTITUTE" val) with 10 in Hlt.
  change (getRadius "INSTITUTE" val') with 10 in Hlt. lia.
Qed.

(** C8, as the code has it.  For a node of weight at least 0, the radius is
    the base of its group plus its weight capped at the largest increment
    of the group: 12 and 5 for PAPER, 8 and 3 for AUTHOR, 5 and 3 for
    CONCEPT, METHOD and any other group, and 10 with no increment for
    INSTITUTE.  The collision radius is that radius plus a margin of 5.
    The radius never decreases when the weight grows, grows with the
    weight as long as the weight is below the cap, and never exceeds base
    plus cap.  A PAPER node is larger than every node of another group,
    and a CONCEPT or METHOD node is at most as large as any PAPER, AUTHOR
    or INSTITUTE node. *)
Theorem C8_radius_policy (d d' : GraphNode) :
  0 <= node_val d ->
  0 <= node_val d' ->
  circleRadius d = radiusBase (node_group d) + Z.min (node_val d) (maxIncrement (node_group d))
  /\ collideRadius d = circleRadius d + 5
  /\ 0 <= maxIncrement (node_group d) <= 5
  /\ (node_group d = "INSTITUTE" -> circleRadius d = 10)
  /\ radiusBase (node_group d) <= circleRadius d
     <= radiusBase (node_group d) + maxIncrement (node_group d)
  /\ (node_group d = node_group d' -> node_val d <= node_val d' ->
      circleRadius d <= circleRadius d')
  /\ (node_group d = node_group d' -> node_val d < node_val d' ->
      node_val d < maxIncrement (node_group d) ->
      circleRadius d < circleRadius d')
  /\ (node_group d = "PAPER" -> node_group d' <> "PAPER" ->
      circleRadius d' < circleRadius d)
  /\ (node_group d = "CONCEPT" \/ node_group d = "METHOD" ->
      node_group d' = "PAPER" \/ node_group d' = "AUTHOR" \/ node_group d' = "INSTITUTE" ->
      circleRadius d <= circleRadius d').
Proof.
  intros Hd Hd'. unfold collideRadius, circleRadius.
  pose proof (getRadius_base_increment (node_group d) (node_val d) Hd) as Hr.
  assert (0 <= maxIncrement (node_group d) <= 5) as Hcap
    by (unfold maxIncrement; repeat case_decide; lia).
  split_and!; [done | done | lia | lia | | lia | lia | | | |].
  - by intros ->.
  - intros <- Hle. by apply getRadius_mono.
  - intros <- Hlt Hbelow.
    rewrite Hr, (getRadius_base_increment _ _ Hd'). lia.
  - intros Hp Hnp. rewrite Hp. unfold getRadius.
    repeat case_decide; try congruence; lia.
  - intros Hcm Hother. unfold getRadius.
    destruct Hcm as [-> | ->]; destruct Hother as [-> | [-> | ->]];
      repeat case_decide; try congruence; lia.
Qed.

Lemma C8_radius_policy_witness :
  circleRadius (newNode "paper:d1" "First paper" "PAPER" 10 EmptyObject) = 17
  /\ circleRadius (newNode "concept:gnn" "GNN" "CONCEPT" 4 EmptyObject) = 8.
Proof.
  destruct (C8_radius_policy
              (newNode "paper:d1" "First paper" "PAPER" 10 EmptyObject)
              (newNode "concept:gnn" "GNN" "CONCEPT" 4 EmptyObject))
    as (Hr & _); [simpl; lia | simpl; lia |].
  split; [exact Hr | reflexivity].
Defined.

(** ** C7: highlighting *)

Section highlight.
Implicit Types (data : KnowledgeGraphData) (linked : gset string).

Lemma elem_of_linked_fold (es : list GraphEdge) target linked k :
  k ∈ foldl (fun linked e =>
               let s := edge_source e in
               let t := edge_target e in
               let linked := if decide (s = target) then linked ∪ {[t]} else linked in
               if decide (t = target) then linked ∪ {[s]} else linked) linked es
  <-> k ∈ linked \/
      exists e, e ∈ es /\
        ((edge_source e = target /\ edge_target e = k)
         \/ (edge_target e = target /\ edge_source e = k)).
Proof.
  revert linked. induction es as [|e es IH]; intros linked; simpl.
  - split; [by left|]. intros [? | (e & He & _)]; [done|]. by apply elem_of_nil in He.
  - rewrite IH. clear IH. split.
    + intros [Hk | (e' & He' & Hj)].
      * repeat case_decide;
          repeat (apply elem_of_union in Hk as [Hk | Hk]);
          try (apply elem_of_singleton in Hk as ->);
          first [ by left | right; exists e; split; [left | tauto] ].
      * right. exists e'. split; [by right | done].
    + intros [Hk | (e' & [-> | He']%elem_of_cons & Hj)].
      * left. repeat case_decide; rewrite ?elem_of_union; tauto.
      * left. destruct Hj as [[Hs <-] | [Ht <-]].
        -- rewrite (decide_True _ _ Hs).
           case_decide; rewrite ?elem_of_union, !elem_of_singleton; tauto.
        -- rewrite (decide_True (P := edge_target e = target)) by done.
           rewrite elem_of_union, !elem_of_singleton; tauto.
      * right. by exists e'.
Qed.

Lemma elem_of_linkedNodeIds data target k :
  k ∈ linkedNodeIds data target <-> oneHop data target k.
Proof.
  unfold linkedNodeIds, oneHop. rewrite elem_of_linked_fold, elem_of_singleton. tauto.
Qed.

End highlight.

(** C7 as stated fails twice.  Clearing the selection leaves the edges at
    the stroke opacity 0.6, below the 0.8 of a highlighted edge and not
    fully opaque; and a selected node whose id is the empty string is
    handled like a cleared selection, so no other node is dimmed. *)
Lemma C7_clearing_is_not_full_opacity :
  link (handleHighlight graphStar None) = [(6 # 10)%Q; (6 # 10)%Q; (6 # 10)%Q]
  /\ link (handleHighlight graphStar (Some "A")) = [(8 # 10)%Q; (8 # 10)%Q; (5 # 100)%Q]
  /\ ~ (forall data q, q ∈ link (handleHighlight data None) -> q = 1%Q)
  /\ circles (handleHighlight graphBlank (Some "")) = [1%Q; 1%Q]
  /\ ~ oneHop graphBlank "" "B".
Proof.
  split_and!; try reflexivity.
  - intros H. specialize (H graphStar (6 # 10)%Q). discriminate H. left.
  - intros [? | (e & He & _)]; [done|]. by apply elem_of_nil in He.
Qed.

(** C7, as the code has it.  For a selected node id other than the empty
    string, the set computed by the highlight pass is the 1-hop
    neighbourhood: the selected id and every id sharing an edge with it.
    Circles and labels of nodes in it get opacity 1, all others 0.1; lines
    with both endpoints in it get stroke opacity 0.8, all others 0.05.
    Clearing the selection gives every circle and label opacity 1 and every
    line stroke opacity 0.6, which is the scene as first rendered. *)
Theorem C7_highlight_one_hop data targetNodeId :
  targetNodeId <> "" ->
  let scene := handleHighlight data (Some targetNodeId) in
  (forall k, k ∈ linkedNodeIds data targetNodeId <-> oneHop data targetNodeId k)
  /\ (forall i d, nodes data !! i = Some d ->
        (oneHop data targetNodeId (node_id d) ->
           circles scene !! i = Some 1%Q /\ labels scene !! i = Some 1%Q)
        /\ (~ oneHop data targetNodeId (node_id d) ->
              circles scene !! i = Some (1 # 10)%Q /\ labels scene !! i = Some (1 # 10)%Q))
  /\ (forall j e, edges data !! j = Some e ->
        (oneHop data targetNodeId (edge_source e) /\ oneHop data targetNodeId (edge_target e) ->
           link scene !! j = Some (8 # 10)%Q)
        /\ (~ (oneHop data targetNodeId (edge_source e)
               /\ oneHop data targetNodeId (edge_target e)) ->
              link scene !! j = Some (5 # 100)%Q))
  /\ length (circles scene) = length (nodes data)
  /\ length (labels scene) = length (nodes data)
  /\ length (link scene) = length (edges data)
  /\ handleHighlight data None = renderedScene data
  /\ (forall q, q ∈ circles (handleHighlight data None) -> q = 1%Q)
  /\ (forall q, q ∈ labels (handleHighlight data None) -> q = 1%Q)
  /\ (forall q, q ∈ link (handleHighlight data None) -> q = (6 # 10)%Q).
Proof.
  intros Hid scene.
  assert (truthy (Some targetNodeId) = Some targetNodeId) as Htruthy
    by by destruct targetNodeId.
  subst scene. unfold handleHighlight. rewrite Htruthy. simpl.
  split_and!.
  - apply elem_of_linkedNodeIds.
  - intros i d Hd. rewrite !list_lookup_fmap, Hd. simpl.
    rewrite <- elem_of_linkedNodeIds. split; intros Hk.
    + by rewrite decide_True.
    + by rewrite decide_False.
  - intros j e He. rewrite !list_lookup_fmap, He. simpl.
    rewrite <- !elem_of_linkedNodeIds. split; intros Hk.
    + by rewrite decide_True.
    + by rewrite decide_False.
  - apply length_fmap.
  - apply length_fmap.
  - apply length_fmap.
  - done.
  - by intros q (d & -> & _)%list_elem_of_fmap.
  - by intros q (d & -> & _)%list_elem_of_fmap.
  - by intros q (d & -> & _)%list_elem_of_fmap.
Qed.

Lemma C7_highlight_one_hop_witness :
  circles (handleHighlight graphStar (Some "A")) !! 1%nat = Some 1%Q
  /\ labels (handleHighlight graphStar (Some "A")) !! 1%nat = Some 1%Q.
Proof.
  destruct (C7_highlight_one_hop graphStar "A") as (_ & Hnodes & _).
  - discriminate.
  - apply (Hnodes 1%nat (newNode "B" "B" "CONCEPT" 3 EmptyObject)).
    + reflexivity.
    + right. exists (mkGraphEdge "A" "B" "r"). split; [left | left; split; reflexivity].
Defined.

(** ** C9: dragging *)

Section drag.
Implicit Types (v : View) (event : DragEvent) (subject : GraphNode).

Lemma alter_alter_pins (l : list GraphNode) i subject (f g : GraphNode -> GraphNode) n' :
  l !! i = Some subject ->
  g (f subject) = n' ->
  alter g i (alter f i l) = <[i := n']> l.
Proof.
  intros Hi <-. rewrite list_alter_alter_eq.
  revert i Hi. induction l as [|x l IH]; intros [|i] Hi; simplify_eq/=; [done|].
  f_equal. by apply IH.
Qed.

End drag.

(** C9.  On the node array, each drag handler replaces the dragged node
    and nothing else, and the node it puts there is the dragged node with
    its two pin fields rewritten.  Drag start writes the node's current
    position: a node at x, y gets fx = x and fy = y (and a coordinate the
    simulation has not set yet is copied as undefined).  A move writes the
    pointer position, a release writes null.  The id, label, group, weight,
    metadata and the position x, y of the node are the ones it had.  So
    after a start, a move and a release on one node, the array is the
    initial one except that this node's pins are null. *)
Theorem C9_drag_writes_only_pins v event event' event'' subject :
  view_nodes v !! ev_subject event = Some subject ->
  ev_subject event' = ev_subject event ->
  ev_subject event'' = ev_subject event ->
  (exists fx fy,
      view_nodes (dragstarted event v)
      = <[ev_subject event := withPins fx fy subject]> (view_nodes v)
      /\ (forall x, node_x subject = Some x -> fx = PinAt x)
      /\ (forall y, node_y subject = Some y -> fy = PinAt y)
      /\ (node_x subject = None -> fx = PinUndefined)
      /\ (node_y subject = None -> fy = PinUndefined))
  /\ view_nodes (dragged event v)
     = <[ev_subject event := withPins (PinAt (ev_x event)) (PinAt (ev_y event)) subject]>
         (view_nodes v)
  /\ view_nodes (dragended event v)
     = <[ev_subject event := withPins PinNull PinNull subject]> (view_nodes v)
  /\ (forall fx fy,
        let n := withPins fx fy subject in
        node_fx n = fx /\ node_fy n = fy
        /\ node_id n = node_id subject /\ node_label n = node_label subject
        /\ node_group n = node_group subject /\ node_val n = node_val subject
        /\ node_x n = node_x subject /\ node_y n = node_y subject
        /\ node_metadata n = node_metadata subject)
  /\ (forall j, j <> ev_subject event ->
        view_nodes (dragstarted event v) !! j = view_nodes v !! j
        /\ view_nodes (dragged event v) !! j = view_nodes v !! j
        /\ view_nodes (dragended event v) !! j = view_nodes v !! j)
  /\ view_nodes (dragended event'' (dragged event' (dragstarted event v)))
     = <[ev_subject event := withPins PinNull PinNull subject]> (view_nodes v).
Proof.
  intros Hsubject Hsame' Hsame''.
  assert (view_nodes (dragstarted event v)
          = <[ev_subject event :=
                withPins (pinOf (node_x subject)) (pinOf (node_y subject)) subject]>
              (view_nodes v)) as Hstart
    by (unfold dragstarted; simpl; by apply (alter_alter_pins _ _ subject)).
  assert (forall w s, view_nodes w !! ev_subject event = Some s ->
            forall ev, ev_subject ev = ev_subject event ->
              view_nodes (dragged ev w)
              = <[ev_subject event := withPins (PinAt (ev_x ev)) (PinAt (ev_y ev)) s]>
                  (view_nodes w)) as Hmove.
  { intros w s Hs ev Hev. unfold dragged; simpl. rewrite Hev.
    by apply (alter_alter_pins _ _ s). }
  assert (forall w s, view_nodes w !! ev_subject event = Some s ->
            forall ev, ev_subject ev = ev_subject event ->
              view_nodes (dragended ev w)
              = <[ev_subject event := withPins PinNull PinNull s]> (view_nodes w)) as Hend.
  { intros w s Hs ev Hev. unfold dragended; simpl. rewrite Hev.
    by apply (alter_alter_pins _ _ s). }
  assert (ev_subject event < length (view_nodes v))%nat as Hlt
    by by eapply lookup_lt_Some.
  split_and!.
  - exists (pinOf (node_x subject)), (pinOf (node_y subject)).
    split; [done|]. split_and!.
    + by intros x ->.
    + by intros y ->.
    + by intros ->.
    + by intros ->.
  - by apply Hmove.
  - by apply Hend.
  - done.
  - intros j Hj. rewrite Hstart, (Hmove v subject), (Hend v subject) by done.
    by rewrite !list_lookup_insert_ne by done.
  - set (n1 := withPins (pinOf (node_x subject)) (pinOf (node_y subject)) subject) in *.
    assert (view_nodes (dragstarted event v) !! ev_subject event = Some n1) as H1.
    { rewrite Hstart. by apply list_lookup_insert_eq. }
    pose proof (Hmove _ _ H1 event' Hsame') as Hv2.
    set (n2 := withPins (PinAt (ev_x event')) (PinAt (ev_y event')) n1) in *.
    assert (view_nodes (dragged event' (dragstarted event v)) !! ev_subject event = Some n2)
      as H2.
    { rewrite Hv2. apply list_lookup_insert_eq. by rewrite Hstart, length_insert. }
    rewrite (Hend _ _ H2 event'' Hsame''), Hv2, Hstart, !list_insert_insert_eq.
    done.
Qed.

Lemma C9_drag_writes_only_pins_witness :
  view_nodes (dragstarted dragStart viewAB)
  = [withPins (PinAt 3) (PinAt 4) nodeA; nodeB]
  /\ view_nodes (dragged dragMove (dragstarted dragStart viewAB))
     = [withPins (PinAt 10) (PinAt 20) nodeA; nodeB]
  /\ view_nodes (dragended dragEnd (dragged dragMove (dragstarted dragStart viewAB)))
     = [withPins PinNull PinNull nodeA; nodeB].
Proof.
  destruct (C9_drag_writes_only_pins viewAB dragStart dragMove dragEnd nodeA)
    as ((fx & fy & Hstart & Hx & Hy & _) & _ & _ & _ & _ & Hgesture);
    [reflexivity..|].
  rewrite (Hx 3%Q eq_refl), (Hy 4%Q eq_refl) in Hstart.
  split; [exact Hstart|].
  split; [|exact Hgesture].
  destruct (C9_drag_writes_only_pins (dragstarted dragStart viewAB) dragMove dragMove dragEnd
              (withPins (PinAt 3) (PinAt 4) nodeA))
    as (_ & Hmove & _); [by rewrite Hstart|reflexivity..|].
  rewrite Hmove, Hstart. reflexivity.
Defined.


(** ** Weights and radii in built graphs *)

(** X2.  Every node of a built graph has weight at least 3, so the
    hypotheses on weights of the radius policy hold for built graphs. *)
Lemma built_weight_at_least_3 docs g n :
  buildGlobalGraph docs = Normal g -> n ∈ nodes g -> 3 <= node_val n.
Proof.
  intros [_ ->]%buildGlobalGraph_inv Hn. simpl in Hn.
  assert (nodeSummary n ∈ nodeSummary <$> JSMap.values (builtNodes docs)) as Hs
    by by apply list_elem_of_fmap_2.
  apply elem_of_summaries in Hs as (len & v0 & _ & Hkind & ->).
  unfold kindOfId in Hkind.
  repeat (case_match; try done); simplify_eq; lia.
Qed.

Lemma built_weight_at_least_3_witness :
  3 <= node_val (bump (newNode "concept:gnn" "GNN" "CONCEPT" 3 EmptyObject)).
Proof.
  apply (built_weight_at_least_3 [doc1; doc2] graph12).
  - vm_compute. reflexivity.
  - vm_compute. do 3 right. left.
Defined.

(** X3.  In a built graph the weight never shows in the radius: every
    base weight is at or above the cap of its group, so every node has the
    largest radius of its group (17, 11, 10 or 8). *)
Lemma built_radius_at_cap docs g n :
  buildGlobalGraph docs = Normal g -> n ∈ nodes g ->
  circleRadius n = radiusBase (node_group n) + maxIncrement (node_group n).
Proof.
  intros [_ ->]%buildGlobalGraph_inv Hn. simpl in Hn.
  assert (nodeSummary n ∈ nodeSummary <$> JSMap.values (builtNodes docs)) as Hs
    by by apply list_elem_of_fmap_2.
  apply elem_of_summaries in Hs as (len & v0 & _ & Hkind & Hval).
  unfold circleRadius. rewrite Hval. unfold kindOfId in Hkind.
  repeat (case_match; try done); simplify_eq.
  all: match goal with H : _ = node_group _ |- _ => rewrite <- H end.
  all: unfold getRadius, radiusBase, maxIncrement; simpl; lia.
Qed.

Lemma built_radius_at_cap_witness :
  circleRadius (bump (newNode "concept:gnn" "GNN" "CONCEPT" 3 EmptyObject))
  = radiusBase "CONCEPT" + maxIncrement "CONCEPT".
Proof.
  apply (built_radius_at_cap [doc1; doc2] graph12
           (bump (newNode "concept:gnn" "GNN" "CONCEPT" 3 EmptyObject))).
  - vm_compute. reflexivity.
  - vm_compute. do 3 right. left.
Defined.

(** * Further properties of the program *)

(** ** The built graph as a whole *)

Section graph.
Import JSMap JSMapFacts.

(** The node of a built graph under an id that some call names. *)
Lemma built_node_of_id docs k :
  k ∈ nc_id <$> (docs ≫= nodeCalls) ->
  exists n v0,
    n ∈ values (builtNodes docs) /\ node_id n = k
    /\ kindOfId k = Some (node_group n, v0).
Proof.
  intros (c & -> & Hc)%list_elem_of_fmap.
  pose proof (get_builtNodes docs (nc_id c)) as Hget.
  assert (c ∈ callsFor (nc_id c) (docs ≫= nodeCalls)) as Hin
    by by apply elem_of_callsFor.
  destruct (callsFor (nc_id c) (docs ≫= nodeCalls)) as [|c0 rest] eqn:Hcalls;
    [by apply elem_of_nil in Hin|].
  assert (c0 ∈ callsFor (nc_id c) (docs ≫= nodeCalls)) as Hc0 by (rewrite Hcalls; left).
  apply elem_of_callsFor in Hc0 as [Hid Hc0].
  exists (bumpBy (length rest) (nodeOfCall c0)), (nc_val c0). split_and!.
  - apply elem_of_builtNodes_values. simpl. by rewrite Hid.
  - done.
  - simpl. rewrite <- Hid. by apply (allCalls_shaped docs).
Qed.

Ltac by_id_prefix Hs Ht :=
  unfold paperId, authorId, instId, conceptId, methodId in Hs, Ht;
  cbn in Hs, Ht; injection Hs as <- _; injection Ht as <- _; reflexivity.

(** The two end nodes of an edge of a built graph, and their groups. *)
Lemma built_edge_nodes docs e :
  e ∈ builtEdges docs ->
  exists s t,
    s ∈ values (builtNodes docs) /\ t ∈ values (builtNodes docs)
    /\ node_id s = edge_source e /\ node_id t = edge_target e
    /\ edgeSchema (edge_relation e) = Some (node_group s, node_group t).
Proof.
  intros He.
  apply elem_of_builtEdges, list_elem_of_bind in He as (doc & He & Hdoc).
  pose proof (edgeCalls_endpoints doc e He) as [Hs Ht].
  assert (forall k, k ∈ nc_id <$> nodeCalls doc -> k ∈ nc_id <$> (docs ≫= nodeCalls)) as Hall.
  { intros k (c & -> & Hc)%list_elem_of_fmap. apply list_elem_of_fmap_2.
    apply list_elem_of_bind. by exists doc. }
  destruct (built_node_of_id docs _ (Hall _ Hs)) as (s & vs & Hsin & Hsid & Hsk).
  destruct (built_node_of_id docs _ (Hall _ Ht)) as (t & vt & Htin & Htid & Htk).
  exists s, t. split_and!; try done.
  unfold edgeCalls in He. rewrite !elem_of_app in He.
  destruct He as [He | [He | [He | He]]].
  - apply list_elem_of_fmap in He as (a & -> & _).
    by_id_prefix Hsk Htk.
  - destruct (truthy (doc_institute doc)) as [institute|]; [|by apply elem_of_nil in He].
    apply elem_of_cons in He as [-> | He].
    + by_id_prefix Hsk Htk.
    + apply list_elem_of_fmap in He as (a & -> & _). by_id_prefix Hsk Htk.
  - apply list_elem_of_fmap in He as (c & -> & _). by_id_prefix Hsk Htk.
  - apply list_elem_of_fmap in He as (m & -> & _). by_id_prefix Hsk Htk.
Qed.

(** In a built graph the node of an id is unique. *)
Lemma built_id_inj docs n n' :
  n ∈ values (builtNodes docs) -> n' ∈ values (builtNodes docs) ->
  node_id n = node_id n' -> n = n'.
Proof.
  intros Hn%elem_of_builtNodes_values Hn'%elem_of_builtNodes_values Hid.
  rewrite Hid in Hn. congruence.
Qed.

End graph.

(** X4.  In a built graph no two nodes have the same id and no edge occurs
    twice; the group of a node is the one its id prefix names, so a paper,
    an author, an institute, a concept and a method can never share a
    node. *)
Theorem built_nodes_distinct docs g :
  buildGlobalGraph docs = Normal g ->
  NoDup (node_id <$> nodes g)
  /\ NoDup (edges g)
  /\ (forall n, n ∈ nodes g ->
        exists base, kindOfId (node_id n) = Some (node_group n, base))
  /\ (forall n n', n ∈ nodes g -> n' ∈ nodes g -> node_id n = node_id n' -> n = n').
Proof.
  intros [_ ->]%buildGlobalGraph_inv. simpl. split_and!.
  - rewrite builtNodes_ids. apply NoDup_builtNodes.
  - apply NoDup_builtEdges.
  - intros n Hn.
    assert (nodeSummary n ∈ nodeSummary <$> JSMap.values (builtNodes docs)) as Hs
      by by apply list_elem_of_fmap_2.
    apply elem_of_summaries in Hs as (len & v0 & _ & Hkind & _). by exists v0.
  - apply built_id_inj.
Qed.

Lemma built_nodes_distinct_witness :
  NoDup (node_id <$> nodes graph12) /\ NoDup (edges graph12).
Proof.
  destruct (built_nodes_distinct [doc1; doc2] graph12) as (Hn & He & _).
  - vm_compute. reflexivity.
  - by split.
Defined.

(** X5.  The edges of a built graph are typed: both endpoints are nodes of
    the graph, and the relation fixes their groups and the direction:
    written_by leads from a PAPER to an AUTHOR, published_at from a PAPER
    to an INSTITUTE, affiliated_with from an AUTHOR to an INSTITUTE,
    discusses from a PAPER to a CONCEPT, uses_method from a PAPER to a
    METHOD. *)
Theorem built_edges_typed docs g e :
  buildGlobalGraph docs = Normal g -> e ∈ edges g ->
  exists s t,
    s ∈ nodes g /\ t ∈ nodes g
    /\ node_id s = edge_source e /\ node_id t = edge_target e
    /\ edgeSchema (edge_relation e) = Some (node_group s, node_group t).
Proof.
  intros [_ ->]%buildGlobalGraph_inv He. by apply built_edge_nodes.
Qed.

Lemma built_edges_typed_witness :
  exists s t,
    s ∈ nodes graph12 /\ t ∈ nodes graph12
    /\ node_id s = "author:K. Chen" /\ node_id t = "inst:MIT"
    /\ Some ("AUTHOR", "INSTITUTE") = Some (node_group s, node_group t).
Proof.
  apply (built_edges_typed [doc1; doc2] graph12
           (mkGraphEdge "author:K. Chen" "inst:MIT" "affiliated_with")).
  - vm_compute. reflexivity.
  - vm_compute. do 2 right. left.
Defined.

(** X6.  Every edge a document calls for is in the built graph, as called
    for: the check that treats an edge and its mirror image as one never
    drops an edge of a build.  Each author of each document has its
    written_by edge; a document with a non-empty institute has its
    published_at edge and one affiliated_with edge per author; each of the
    first five key concepts and each of the first three methods has its
    edge.  Conversely every edge of the graph is one of these. *)
Theorem built_edges_complete docs g doc :
  buildGlobalGraph docs = Normal g -> doc ∈ docs ->
  (forall a, a ∈ authorsOf doc ->
     mkGraphEdge ("paper:" +:+ doc_id doc) ("author:" +:+ JSString.trim a) "written_by"
     ∈ edges g)
  /\ (forall institute, truthy (doc_institute doc) = Some institute ->
        mkGraphEdge ("paper:" +:+ doc_id doc) ("inst:" +:+ JSString.trim institute)
          "published_at" ∈ edges g
        /\ forall a, a ∈ authorsOf doc ->
             mkGraphEdge ("author:" +:+ JSString.trim a)
               ("inst:" +:+ JSString.trim institute) "affiliated_with" ∈ edges g)
  /\ (forall c, c ∈ conceptsOf doc ->
        mkGraphEdge ("paper:" +:+ doc_id doc)
          ("concept:" +:+ JSString.trim (JSString.toLowerCase c)) "discusses" ∈ edges g)
  /\ (forall m, m ∈ methodsOf doc ->
        mkGraphEdge ("paper:" +:+ doc_id doc)
          ("method:" +:+ JSString.trim (JSString.toLowerCase m)) "uses_method" ∈ edges g)
  /\ (forall e, e ∈ edges g -> exists doc', doc' ∈ docs /\ e ∈ edgeCalls doc').
Proof.
  intros [_ ->]%buildGlobalGraph_inv Hdoc. simpl.
  assert (forall e, e ∈ edgeCalls doc -> e ∈ builtEdges docs) as Hin.
  { intros e He. apply elem_of_builtEdges, list_elem_of_bind. by exists doc. }
  split_and!.
  - intros a Ha. apply Hin. unfold edgeCalls. rewrite !elem_of_app. left.
    by apply (list_elem_of_fmap_2 (fun a => mkGraphEdge _ (authorId a) _)).
  - intros institute Hinst. split.
    + apply Hin. unfold edgeCalls. rewrite !elem_of_app, Hinst. right; left. left.
    + intros a Ha. apply Hin. unfold edgeCalls. rewrite !elem_of_app, Hinst.
      right; left. right.
      by apply (list_elem_of_fmap_2 (fun a => mkGraphEdge (authorId a) _ _)).
  - intros c Hc. apply Hin. unfold edgeCalls. rewrite !elem_of_app. do 2 right. left.
    by apply (list_elem_of_fmap_2 (fun c => mkGraphEdge _ (conceptId c) _)).
  - intros m Hm. apply Hin. unfold edgeCalls. rewrite !elem_of_app. do 3 right.
    by apply (list_elem_of_fmap_2 (fun m => mkGraphEdge _ (methodId m) _)).
  - intros e (doc' & He & Hdoc')%elem_of_builtEdges%list_elem_of_bind. by exists doc'.
Qed.

Lemma built_edges_complete_witness :
  mkGraphEdge "paper:d9" "concept:e" "discusses"
  ∈ edges (graphOr (buildGlobalGraph [doc1; docFull]))
  /\ mkGraphEdge "author:A. Turing" "inst:MIT" "affiliated_with"
     ∈ edges (graphOr (buildGlobalGraph [doc1; docFull])).
Proof.
  destruct (built_edges_complete [doc1; docFull]
              (graphOr (buildGlobalGraph [doc1; docFull])) docFull)
    as (_ & Hinst & Hconcept & _).
  - vm_compute. reflexivity.
  - right. left.
  - split.
    + apply (Hconcept "e"). vm_compute. do 4 right. left.
    + apply (proj2 (Hinst "MIT" eq_refl) "A. Turing"). left.
Defined.

(** X7.  A build is all or nothing: it throws a TypeError exactly when
    some document of the list lacks one of its three arrays, wherever that
    document stands, and returns a graph exactly when every document has
    them; the documents before a malformed one leave no partial graph. *)
Theorem build_all_or_nothing docs :
  (buildGlobalGraph docs = Throw TypeError
   <-> exists doc, doc ∈ docs /\ ~ wellFormed doc)
  /\ ((exists g, buildGlobalGraph docs = Normal g) <-> Forall wellFormed docs)
  /\ (forall before doc after,
        docs = before ++ doc :: after -> ~ wellFormed doc ->
        buildGlobalGraph docs = Throw TypeError).
Proof.
  split_and!.
  - rewrite buildGlobalGraph_throws_iff. split.
    + intros Hbad. apply Exists_exists, not_Forall_Exists; [apply _ | done].
    + intros (doc & Hdoc & Hbad) Hwf. rewrite Forall_forall in Hwf. by apply Hbad, Hwf.
  - split.
    + by intros [g [Hwf _]%buildGlobalGraph_inv].
    + intros Hwf. eexists. by apply buildGlobalGraph_Normal.
  - intros before doc after -> Hbad. apply buildGlobalGraph_Throw.
    intros Hwf. apply Forall_app in Hwf as [_ Hwf]. by apply Forall_cons in Hwf as [? _].
Qed.

Section appending.
Import JSMap JSMapFacts.

Lemma builtNodes_app docs more :
  builtNodes (docs ++ more) = foldl putNode (builtNodes docs) (more ≫= nodeCalls).
Proof. unfold builtNodes. by rewrite bind_app, foldl_app. Qed.

Lemma builtEdges_app docs more :
  builtEdges (docs ++ more) = foldl putEdge (builtEdges docs) (more ≫= edgeCalls).
Proof. unfold builtEdges. by rewrite bind_app, foldl_app. Qed.

Lemma keys_foldl_prefix cs (m : JSMap.t GraphNode) :
  exists l, keys (foldl putNode m cs) = keys m ++ l.
Proof.
  revert m. induction cs as [|c cs IH]; intros m; simpl.
  - exists []. by rewrite app_nil_r.
  - destruct (IH (putNode m c)) as [l ->]. rewrite keys_putNode.
    destruct (has m (nc_id c)); [by exists l|].
    exists (nc_id c :: l). by rewrite <- app_assoc.
Qed.

Lemma foldl_putEdge_prefix cs es :
  exists l, foldl putEdge es cs = es ++ l.
Proof.
  revert es. induction cs as [|c cs IH]; intros es; simpl.
  - exists []. by rewrite app_nil_r.
  - destruct (IH (putEdge es c)) as [l ->]. rewrite putEdge_unfold.
    repeat case_match; [by exists l..|].
    exists (c :: l). by rewrite <- app_assoc.
Qed.

End appending.

(** X8.  Adding documents at the end of the list only adds to the graph:
    the nodes of the shorter build keep their place, id, label, group and
    metadata and their weight does not decrease, the new nodes come after
    them, and the edges of the shorter build are the first edges of the
    longer one. *)
Theorem build_grows_with_documents docs more g g' :
  buildGlobalGraph docs = Normal g ->
  buildGlobalGraph (docs ++ more) = Normal g' ->
  (exists newIds, node_id <$> nodes g' = (node_id <$> nodes g) ++ newIds)
  /\ (forall n, n ∈ nodes g ->
        exists n',
          n' ∈ nodes g' /\ node_id n' = node_id n /\ node_label n' = node_label n
          /\ node_group n' = node_group n /\ node_metadata n' = node_metadata n
          /\ node_val n <= node_val n')
  /\ (exists newEdges, edges g' = edges g ++ newEdges).
Proof.
  intros [_ ->]%buildGlobalGraph_inv [_ ->]%buildGlobalGraph_inv. simpl. split_and!.
  - rewrite !builtNodes_ids, builtNodes_app. apply keys_foldl_prefix.
  - intros n Hn%elem_of_builtNodes_values.
    exists (bumpBy (length (callsFor (node_id n) (more ≫= nodeCalls))) n).
    split_and!; try done; [|simpl; lia].
    apply elem_of_builtNodes_values. simpl.
    rewrite builtNodes_app. by apply get_foldl_present.
  - rewrite builtEdges_app. apply foldl_putEdge_prefix.
Qed.

Lemma build_grows_with_documents_witness :
  (exists newIds,
     node_id <$> nodes (graphOr (buildGlobalGraph [doc1; doc2; docFull]))
     = (node_id <$> nodes graph12) ++ newIds)
  /\ (exists newEdges,
        edges (graphOr (buildGlobalGraph [doc1; doc2; docFull]))
        = edges graph12 ++ newEdges).
Proof.
  destruct (build_grows_with_documents [doc1; doc2] [docFull] graph12
              (graphOr (buildGlobalGraph [doc1; doc2; docFull])))
    as (Hn & _ & He).
  - vm_compute. reflexivity.
  - vm_compute. reflexivity.
  - by split.
Defined.

(** ** Papers and the button "View Full Paper" *)

Section papers.
Import JSMap JSMapFacts.

(** Among the calls of a document, only its paper call can name a paper
    id. *)
Lemma callsFor_paper doc id :
  callsFor ("paper:" +:+ id) (nodeCalls doc)
  = paperCall <$> documentsWithId id [doc].
Proof.
  unfold callsFor, nodeCalls, documentsWithId.
  rewrite filter_cons, !filter_app, !filter_fmap.
  rewrite (filter_none _ (authorsOf doc)) by done.
  rewrite (filter_none _ (conceptsOf doc)) by done.
  rewrite (filter_none _ (methodsOf doc)) by done.
  assert (filter (fun c => nc_id c = "paper:" +:+ id)
            match truthy (doc_institute doc) with
            | Some institute => [instCall institute]
            | None => []
            end = []) as ->.
  { destruct (truthy (doc_institute doc)); [|done]. by rewrite filter_cons_False. }
  rewrite (filter_cons _ doc). simpl. unfold paperId.
  repeat case_decide; try done.
  - exfalso. cbn in *. by simplify_eq.
  - exfalso. by subst.
Qed.

Lemma allCalls_paper docs id :
  callsFor ("paper:" +:+ id) (docs ≫= nodeCalls) = paperCall <$> documentsWithId id docs.
Proof.
  unfold callsFor, documentsWithId. rewrite filter_bind.
  induction docs as [|doc docs IH]; csimpl; [done|].
  rewrite IH. pose proof (callsFor_paper doc id) as Hdoc.
  unfold callsFor, documentsWithId in Hdoc. rewrite Hdoc.
  rewrite <- fmap_app. f_equal.
  rewrite (filter_cons _ doc docs), (filter_cons _ doc []). by case_decide.
Qed.

(** [Array.prototype.find] returns the first element the filter keeps. *)
Lemma find_documentsWithId id docs :
  find (fun d => bool_decide (doc_id d = id)) docs = head (documentsWithId id docs).
Proof.
  unfold documentsWithId.
  induction docs as [|doc docs IH]; [done|].
  rewrite filter_cons. simpl. case_bool_decide.
  - by rewrite decide_True.
  - by rewrite decide_False.
Qed.

(** A call of group PAPER is the paper call of a document. *)
Lemma paperCall_inv docs c :
  c ∈ docs ≫= nodeCalls -> nc_group c = "PAPER" ->
  exists doc, doc ∈ docs /\ c = paperCall doc.
Proof.
  intros (doc & Hc & Hdoc)%list_elem_of_bind Hgroup. exists doc. split; [done|].
  unfold nodeCalls in Hc. rewrite elem_of_cons, !elem_of_app in Hc.
  destruct Hc as [-> | [Hc | [Hc | [Hc | Hc]]]]; [done|..].
  - by apply list_elem_of_fmap in Hc as (a & -> & _).
  - destruct (truthy (doc_institute doc)); [|by apply elem_of_nil in Hc].
    by apply list_elem_of_singleton in Hc as ->.
  - by apply list_elem_of_fmap in Hc as (a & -> & _).
  - by apply list_elem_of_fmap in Hc as (a & -> & _).
Qed.

End papers.

(** X9.  Documents are merged by id: the documents of one id share one
    PAPER node, whose label and metadata are the title, date and summary
    of the first of them and whose weight is 10 plus the number of later
    documents with this id. *)
Theorem paper_node_of_document docs g doc :
  buildGlobalGraph docs = Normal g -> doc ∈ docs ->
  exists first later n,
    documentsWithId (doc_id doc) docs = first :: later
    /\ filter (fun n' => node_id n' = "paper:" +:+ doc_id doc) (nodes g) = [n]
    /\ node_group n = "PAPER"
    /\ node_label n = doc_title first
    /\ node_metadata n
       = PaperMetadata (doc_title first) (doc_publicationDate first) (doc_summary first)
           (doc_id doc)
    /\ node_val n = 10 + Z.of_nat (length later).
Proof.
  intros [_ ->]%buildGlobalGraph_inv Hdoc. simpl.
  pose proof (get_builtNodes docs ("paper:" +:+ doc_id doc)) as Hget.
  rewrite allCalls_paper in Hget.
  assert (doc ∈ documentsWithId (doc_id doc) docs) as Hin
    by by apply list_elem_of_filter.
  destruct (documentsWithId (doc_id doc) docs) as [|first later] eqn:Hdocs;
    [by apply elem_of_nil in Hin|].
  assert (first ∈ documentsWithId (doc_id doc) docs) as Hfirst by (rewrite Hdocs; left).
  apply list_elem_of_filter in Hfirst as [Hid _].
  csimpl in Hget. rewrite length_fmap in Hget.
  set (n := bumpBy (length later) (nodeOfCall (paperCall first))) in *.
  assert (node_id n = "paper:" +:+ doc_id doc) as Hn by (simpl; unfold paperId; by rewrite Hid).
  exists first, later, n. split_and!; try done.
  - rewrite <- Hn. apply filter_id_unique.
    + rewrite builtNodes_ids. apply NoDup_builtNodes.
    + apply elem_of_builtNodes_values. by rewrite Hn.
  - simpl. by rewrite Hid.
Qed.

Lemma paper_node_of_document_witness :
  exists first later n,
    documentsWithId "d1" [doc1; doc2; doc1Again] = first :: later
    /\ filter (fun n' => node_id n' = "paper:" +:+ "d1")
         (nodes (graphOr (buildGlobalGraph [doc1; doc2; doc1Again]))) = [n]
    /\ node_group n = "PAPER"
    /\ node_label n = doc_title first
    /\ node_metadata n
       = PaperMetadata (doc_title first) (doc_publicationDate first) (doc_summary first)
           "d1"
    /\ node_val n = 10 + Z.of_nat (length later).
Proof.
  apply (paper_node_of_document [doc1; doc2; doc1Again]
           (graphOr (buildGlobalGraph [doc1; doc2; doc1Again])) doc1Again).
  - vm_compute. reflexivity.
  - do 2 right. left.
Defined.

(** X10.  The button "View Full Paper" opens the paper that is shown: for
    every PAPER node of a built graph it finds a document, the first one
    of the list with the id in the node's metadata, and the node's id,
    label and metadata are those of this document.  For a node of another
    group it opens nothing. *)
Theorem view_full_paper_opens_the_paper docs g n :
  buildGlobalGraph docs = Normal g -> n ∈ nodes g ->
  (node_group n = "PAPER" ->
   exists doc later,
     viewFullPaper docs n = Some doc
     /\ documentsWithId (doc_id doc) docs = doc :: later
     /\ node_id n = "paper:" +:+ doc_id doc
     /\ node_label n = doc_title doc
     /\ node_metadata n
        = PaperMetadata (doc_title doc) (doc_publicationDate doc) (doc_summary doc)
            (doc_id doc))
  /\ (node_group n <> "PAPER" -> viewFullPaper docs n = None).
Proof.
  intros [_ ->]%buildGlobalGraph_inv Hn. simpl in Hn. split.
  - intros Hgroup.
    apply elem_of_builtNodes_values in Hn. rewrite get_builtNodes in Hn.
    destruct (callsFor (node_id n) (docs ≫= nodeCalls)) as [|c rest] eqn:Hcalls; [done|].
    injection Hn as <-. simpl in Hgroup.
    assert (c ∈ callsFor (nc_id c) (docs ≫= nodeCalls)) as Hc by (simpl in Hcalls; rewrite Hcalls; left).
    apply elem_of_callsFor in Hc as [_ Hc].
    destruct (paperCall_inv docs c Hc Hgroup) as (doc0 & Hdoc0 & ->).
    simpl in Hcalls. unfold paperId in Hcalls. rewrite allCalls_paper in Hcalls.
    destruct (documentsWithId (doc_id doc0) docs) as [|first later] eqn:Hdocs; [done|].
    csimpl in Hcalls. injection Hcalls as _ _ Ht Hd Hs Hid _.
    exists first, later. unfold viewFullPaper. simpl.
    rewrite find_documentsWithId, Hdocs, Hid, Hdocs. unfold paperId.
    by rewrite Ht, Hd, Hs.
  - intros Hgroup. unfold viewFullPaper. by rewrite decide_False.
Qed.

Lemma view_full_paper_opens_the_paper_witness :
  exists doc later,
    viewFullPaper [doc1; doc2; doc1Again]
      (newNode "paper:d1" "First paper" "PAPER" 11
         (PaperMetadata "First paper" "2024" "Summary one" "d1")) = Some doc
    /\ documentsWithId (doc_id doc) [doc1; doc2; doc1Again] = doc :: later
    /\ "paper:d1" = "paper:" +:+ doc_id doc
    /\ "First paper" = doc_title doc
    /\ PaperMetadata "First paper" "2024" "Summary one" "d1"
       = PaperMetadata (doc_title doc) (doc_publicationDate doc) (doc_summary doc)
           (doc_id doc).
Proof.
  apply (view_full_paper_opens_the_paper [doc1; doc2; doc1Again]
           (graphOr (buildGlobalGraph [doc1; doc2; doc1Again]))
           (newNode "paper:d1" "First paper" "PAPER" 11
              (PaperMetadata "First paper" "2024" "Summary one" "d1"))).
  - vm_compute. reflexivity.
  - vm_compute. left.
  - reflexivity.
Defined.

(** ** The filters of the graph explorer *)

Section filters.
Import JSMap JSMapFacts.
Implicit Types (graphFilters : GraphFilters) (rawData : KnowledgeGraphData).

Lemma filter_all {A} (P : A -> Prop) `{!forall x, Decision (P x)} (l : list A) :
  (forall x, x ∈ l -> P x) -> filter P l = l.
Proof.
  induction l as [|x l IH]; intros HP; [done|].
  rewrite filter_cons_True by (apply HP; left).
  f_equal. apply IH. intros y Hy. apply HP. by right.
Qed.

Lemma nodeShown_shownGroup graphFilters n :
  nodeShown graphFilters n = shownGroup graphFilters (node_group n).
Proof.
  unfold nodeShown, shownGroup.
  destruct graphFilters as [[] [] []]; simpl;
    repeat (case_bool_decide; simpl); repeat case_decide; congruence.
Qed.

Lemma elem_of_filtered_ids graphFilters (l : list GraphNode) k :
  k ∈ (list_to_set (node_id <$> filter (fun n => nodeShown graphFilters n = true) l)
         : gset string)
  <-> exists n, n ∈ l /\ node_id n = k /\ shownGroup graphFilters (node_group n) = true.
Proof.
  rewrite elem_of_list_to_set, list_elem_of_fmap. split.
  - intros (n & -> & [Hshown Hn]%list_elem_of_filter).
    exists n. by rewrite <- nodeShown_shownGroup.
  - intros (n & Hn & <- & Hshown). exists n. split; [done|].
    apply list_elem_of_filter. by rewrite nodeShown_shownGroup.
Qed.

End filters.

(** X11.  Whatever graph the filters are applied to, the result has no
    dangling edge and no node of a hidden group; the nodes of the groups
    PAPER and METHOD (and of any group without a check box) are always
    kept; and the kept nodes and edges are the original ones, in their
    original order. *)
Theorem filtered_graph_closed graphFilters rawData :
  let data := applyFilters graphFilters rawData in
  (forall e, e ∈ edges data ->
     edge_source e ∈ node_id <$> nodes data /\ edge_target e ∈ node_id <$> nodes data)
  /\ (forall n, n ∈ nodes data ->
        (node_group n = "CONCEPT" -> showConcepts graphFilters = true)
        /\ (node_group n = "AUTHOR" -> showAuthors graphFilters = true)
        /\ (node_group n = "INSTITUTE" -> showInstitutes graphFilters = true))
  /\ (forall n, n ∈ nodes rawData ->
        node_group n <> "CONCEPT" -> node_group n <> "AUTHOR" ->
        node_group n <> "INSTITUTE" -> n ∈ nodes data)
  /\ sublist (nodes data) (nodes rawData)
  /\ sublist (edges data) (edges rawData).
Proof.
  unfold applyFilters; simpl. split_and!.
  - intros e [[Hs Ht] _]%list_elem_of_filter.
    by rewrite !elem_of_list_to_set in Hs, Ht.
  - intros n [Hshown _]%list_elem_of_filter.
    rewrite nodeShown_shownGroup in Hshown. unfold shownGroup in Hshown.
    split_and!; intros Hgroup; rewrite Hgroup in Hshown; by vm_compute in Hshown.
  - intros n Hn Hc Ha Hi. apply list_elem_of_filter. split; [|done].
    rewrite nodeShown_shownGroup. unfold shownGroup. by rewrite !decide_False.
  - apply sublist_filter.
  - apply sublist_filter.
Qed.

(** X12.  With the three check boxes ticked, as they are initially, the
    explorer shows the built graph unchanged; and when the build throws,
    so does the explorer. *)
Theorem all_groups_shown_is_identity docs :
  globalGraphData docs initialGraphFilters = buildGlobalGraph docs.
Proof.
  unfold globalGraphData.
  destruct (buildGlobalGraph docs) as [g|] eqn:Hbuild; [|done].
  apply buildGlobalGraph_inv in Hbuild as [_ ->].
  unfold applyFilters; simpl. f_equal.
  assert (filter (fun n => nodeShown initialGraphFilters n = true)
            (JSMap.values (builtNodes docs)) = JSMap.values (builtNodes docs)) as ->.
  { apply filter_all. intros n _. by rewrite nodeShown_shownGroup; unfold shownGroup;
      repeat case_decide. }
  f_equal. apply filter_all. intros e He.
  destruct (built_edge_nodes docs e He) as (s & t & Hs & Ht & <- & <- & _).
  rewrite !elem_of_list_to_set. split; by apply list_elem_of_fmap_2.
Qed.

(** X13.  In the explorer an edge of the built graph is shown exactly when
    the groups at its two ends are: a uses_method edge always, a
    written_by edge when the authors are shown, a published_at edge when
    the institutes are, an affiliated_with edge when both are, a discusses
    edge when the concepts are. *)
Theorem filtered_edges_by_relation docs graphFilters rawData data e :
  buildGlobalGraph docs = Normal rawData ->
  globalGraphData docs graphFilters = Normal data ->
  e ∈ edges rawData ->
  (e ∈ edges data <->
     exists sourceGroup targetGroup,
       edgeSchema (edge_relation e) = Some (sourceGroup, targetGroup)
       /\ shownGroup graphFilters sourceGroup = true
       /\ shownGroup graphFilters targetGroup = true)
  /\ (edge_relation e = "uses_method" -> e ∈ edges data)
  /\ (edge_relation e = "written_by" ->
        (e ∈ edges data <-> showAuthors graphFilters = true))
  /\ (edge_relation e = "published_at" ->
        (e ∈ edges data <-> showInstitutes graphFilters = true))
  /\ (edge_relation e = "affiliated_with" ->
        (e ∈ edges data
         <-> showAuthors graphFilters = true /\ showInstitutes graphFilters = true))
  /\ (edge_relation e = "discusses" ->
        (e ∈ edges data <-> showConcepts graphFilters = true)).
Proof.
  intros Hbuild Hdata He. unfold globalGraphData in Hdata. rewrite Hbuild in Hdata.
  injection Hdata as <-.
  apply buildGlobalGraph_inv in Hbuild as [_ ->]. simpl in He.
  destruct (built_edge_nodes docs e He) as (s & t & Hs & Ht & Hsid & Htid & Hschema).
  assert (e ∈ edges (applyFilters graphFilters
                       {| nodes := JSMap.values (builtNodes docs);
                          edges := builtEdges docs |})
          <-> shownGroup graphFilters (node_group s) = true
              /\ shownGroup graphFilters (node_group t) = true) as Hmain.
  { unfold applyFilters; simpl.
    rewrite list_elem_of_filter, !elem_of_filtered_ids. split.
    - intros [[(s' & Hs' & Hid & Hshown) (t' & Ht' & Hid' & Hshown')] _].
      rewrite <- Hsid in Hid. rewrite <- Htid in Hid'.
      apply (built_id_inj docs) in Hid; [|done..].
      apply (built_id_inj docs) in Hid'; [|done..]. by subst.
    - intros [Hshown Hshown']. split_and!; [by exists s | by exists t | done]. }
  rewrite Hmain, Hschema. clear Hmain. split_and!.
  - split.
    + intros [? ?]. by exists (node_group s), (node_group t).
    + by intros (sg & tg & [= <- <-] & ? & ?).
  - intros Hrel. rewrite Hrel in Hschema. injection Hschema as <- <-. done.
  - intros Hrel. rewrite Hrel in Hschema. injection Hschema as <- <-.
    unfold shownGroup; simpl. tauto.
  - intros Hrel. rewrite Hrel in Hschema. injection Hschema as <- <-.
    unfold shownGroup; simpl. tauto.
  - intros Hrel. rewrite Hrel in Hschema. injection Hschema as <- <-.
    unfold shownGroup; simpl. tauto.
  - intros Hrel. rewrite Hrel in Hschema. injection Hschema as <- <-.
    unfold shownGroup; simpl. tauto.
Qed.

Lemma filtered_edges_by_relation_witness :
  mkGraphEdge "paper:d1" "author:K. Chen" "written_by" ∈ edges graph12
  /\ ~ mkGraphEdge "paper:d1" "author:K. Chen" "written_by"
       ∈ edges (graphOr (globalGraphData [doc1; doc2] hideAuthors))
  /\ mkGraphEdge "paper:d1" "inst:MIT" "published_at"
     ∈ edges (graphOr (globalGraphData [doc1; doc2] hideAuthors)).
Proof.
  assert (buildGlobalGraph [doc1; doc2] = Normal graph12) as Hbuild
    by (vm_compute; reflexivity).
  assert (globalGraphData [doc1; doc2] hideAuthors
          = Normal (graphOr (globalGraphData [doc1; doc2] hideAuthors))) as Hdata
    by (vm_compute; reflexivity).
  assert (mkGraphEdge "paper:d1" "author:K. Chen" "written_by" ∈ edges graph12) as Hwritten
    by (vm_compute; left).
  assert (mkGraphEdge "paper:d1" "inst:MIT" "published_at" ∈ edges graph12) as Hpublished
    by (vm_compute; right; left).
  split_and!.
  - exact Hwritten.
  - destruct (filtered_edges_by_relation _ _ _ _ _ Hbuild Hdata Hwritten)
      as (_ & _ & Hiff & _).
    intros Hin. apply (Hiff eq_refl) in Hin. discriminate Hin.
  - destruct (filtered_edges_by_relation _ _ _ _ _ Hbuild Hdata Hpublished)
      as (_ & _ & _ & Hiff & _).
    by apply (Hiff eq_refl).
Defined.

(** ** Papers and their concepts and methods *)

Section degrees.
Import JSMap JSMapFacts.

Lemma NoDup_fmap_inj_on {A B} (f : A -> B) (l : list A) x y :
  NoDup (f <$> l) -> x ∈ l -> y ∈ l -> f x = f y -> x = y.
Proof.
  induction l as [|a l IH]; csimpl; intros Hnd Hx Hy Hf.
  - by apply elem_of_nil in Hx.
  - apply NoDup_cons in Hnd as [Ha Hnd].
    apply elem_of_cons in Hx as [-> | Hx]; apply elem_of_cons in Hy as [-> | Hy].
    + done.
    + exfalso. apply Ha. rewrite Hf. by apply list_elem_of_fmap_2.
    + exfalso. apply Ha. rewrite <- Hf. by apply list_elem_of_fmap_2.
    + by apply IH.
Qed.

Lemma NoDup_subset_length {A} (l k : list A) :
  NoDup l -> (forall x, x ∈ l -> x ∈ k) -> (length l <= length k)%nat.
Proof. intros Hnd Hsub. by apply submseteq_length, NoDup_submseteq. Qed.

(** The edges of one relation that a document calls for at its paper. *)
Lemma edgeCalls_from doc e :
  e ∈ edgeCalls doc -> edge_source e = paperId doc ->
  (edge_relation e = "discusses" ->
   e ∈ (fun c => mkGraphEdge (paperId doc) (conceptId c) "discusses") <$> conceptsOf doc)
  /\ (edge_relation e = "uses_method" ->
      e ∈ (fun m => mkGraphEdge (paperId doc) (methodId m) "uses_method") <$> methodsOf doc).
Proof.
  intros He Hsource. unfold edgeCalls in He. rewrite !elem_of_app in He.
  destruct He as [He | [He | [He | He]]].
  - apply list_elem_of_fmap in He as (a & -> & _). by split.
  - destruct (truthy (doc_institute doc)); [|by apply elem_of_nil in He].
    apply elem_of_cons in He as [-> | He]; [by split|].
    apply list_elem_of_fmap in He as (a & -> & _). by split.
  - split; [done|]. by apply list_elem_of_fmap in He as (a & -> & _).
  - split; [|done]. by apply list_elem_of_fmap in He as (a & -> & _).
Qed.

End degrees.

Ltac by_source_id H :=
  simpl in H; unfold paperId, authorId in H; cbn in H; by simplify_eq.

(** X14.  When the documents have pairwise distinct ids, a paper has at
    most 5 [discusses] edges and at most 3 [uses_method] edges, however
    many key concepts and methods its document lists. *)
Theorem paper_degree_bounded docs g doc :
  buildGlobalGraph docs = Normal g ->
  NoDup (doc_id <$> docs) -> doc ∈ docs ->
  (length (edgesFrom ("paper:" +:+ doc_id doc) "discusses" g) <= 5)%nat
  /\ (length (edgesFrom ("paper:" +:+ doc_id doc) "uses_method" g) <= 3)%nat.
Proof.
  intros [_ ->]%buildGlobalGraph_inv Hids Hdoc. unfold edgesFrom; simpl.
  assert (forall e, e ∈ builtEdges docs -> edge_source e = "paper:" +:+ doc_id doc ->
            e ∈ edgeCalls doc) as Hfrom.
  { intros e (doc' & He & Hdoc')%elem_of_builtEdges%list_elem_of_bind Hsource.
    enough (doc' = doc) by by subst.
    apply (NoDup_fmap_inj_on doc_id docs); [done..|].
    pose proof (edgeCalls_forward doc' e He) as Hforward.
    unfold edgeCalls in He. rewrite !elem_of_app in He.
    destruct He as [He | [He | [He | He]]].
    - apply list_elem_of_fmap in He as (a & -> & _). by_source_id Hsource.
    - destruct (truthy (doc_institute doc')); [|by apply elem_of_nil in He].
      apply elem_of_cons in He as [-> | He]; [by_source_id Hsource|].
      apply list_elem_of_fmap in He as (a & -> & _). by_source_id Hsource.
    - apply list_elem_of_fmap in He as (a & -> & _). by_source_id Hsource.
    - apply list_elem_of_fmap in He as (a & -> & _). by_source_id Hsource. }
  split.
  - etrans; [apply (NoDup_subset_length _
               ((fun c => mkGraphEdge (paperId doc) (conceptId c) "discusses")
                  <$> conceptsOf doc))|].
    + apply NoDup_filter, NoDup_builtEdges.
    + intros e [[Hsource Hrel] He]%list_elem_of_filter.
      by apply (edgeCalls_from doc e (Hfrom e He Hsource) Hsource).
    + rewrite length_fmap. unfold conceptsOf. rewrite length_take. lia.
  - etrans; [apply (NoDup_subset_length _
               ((fun m => mkGraphEdge (paperId doc) (methodId m) "uses_method")
                  <$> methodsOf doc))|].
    + apply NoDup_filter, NoDup_builtEdges.
    + intros e [[Hsource Hrel] He]%list_elem_of_filter.
      by apply (edgeCalls_from doc e (Hfrom e He Hsource) Hsource).
    + rewrite length_fmap. unfold methodsOf. rewrite length_take. lia.
Qed.

Lemma paper_degree_bounded_witness :
  (length (edgesFrom "paper:d9" "discusses"
             (graphOr (buildGlobalGraph [doc1; docFull]))) <= 5)%nat
  /\ (length (edgesFrom "paper:d9" "uses_method"
                (graphOr (buildGlobalGraph [doc1; docFull]))) <= 3)%nat.
Proof.
  apply (paper_degree_bounded [doc1; docFull]
           (graphOr (buildGlobalGraph [doc1; docFull])) docFull).
  - vm_compute. reflexivity.
  - vm_compute. repeat constructor; set_unfold; intuition discriminate.
  - right. left.
Defined.

(** ** The view: colours, clicks and drags *)

(** X15.  In a built graph the colour of a node tells its group: two nodes
    have the same colour exactly when they have the same group, and no node
    gets the colour of the default case. *)
Theorem color_tells_group docs g n n' :
  buildGlobalGraph docs = Normal g -> n ∈ nodes g -> n' ∈ nodes g ->
  (getColor (node_group n) = getColor (node_group n') <-> node_group n = node_group n')
  /\ getColor (node_group n) <> defaultColor.
Proof.
  intros [_ ->]%buildGlobalGraph_inv Hn Hn'. simpl in *.
  assert (forall m, m ∈ JSMap.values (builtNodes docs) ->
            node_group m ∈ ["PAPER"; "AUTHOR"; "INSTITUTE"; "CONCEPT"; "METHOD"]) as Hknown.
  { intros m Hm.
    assert (nodeSummary m ∈ nodeSummary <$> JSMap.values (builtNodes docs)) as Hs
      by by apply list_elem_of_fmap_2.
    apply elem_of_summaries in Hs as (len & v0 & _ & Hkind & _).
    unfold kindOfId in Hkind.
    repeat (case_match; try done); simplify_eq;
      match goal with H : _ = node_group _ |- _ => rewrite <- H end;
      set_unfold; tauto. }
  pose proof (Hknown n Hn) as Hg. pose proof (Hknown n' Hn') as Hg'.
  set_unfold.
  destruct Hg as [-> | [-> | [-> | [-> | [-> | []]]]]];
    (split; [|by vm_compute]);
    destruct Hg' as [-> | [-> | [-> | [-> | [-> | []]]]]];
    split; first [done | by vm_compute ].
Qed.

Lemma color_tells_group_witness :
  getColor "PAPER" <> getColor "AUTHOR" /\ getColor "PAPER" <> defaultColor.
Proof.
  destruct (color_tells_group [doc1; doc2] graph12
              (newNode "paper:d1" "First paper" "PAPER" 10
                 (PaperMetadata "First paper" "2024" "Summary one" "d1"))
              (bump (newNode "author:K. Chen" "K. Chen" "AUTHOR" 5 EmptyObject)))
    as [Hiff Hdefault].
  - vm_compute. reflexivity.
  - vm_compute. left.
  - vm_compute. right. left.
  - split; [|exact Hdefault]. intros Hcolor. by apply Hiff in Hcolor.
Defined.

(** X16.  Highlighting is symmetric: selecting a node leaves another node
    prominent exactly when selecting the other one leaves the first
    prominent, because an edge counts in both directions. *)
Theorem highlight_symmetric data a b :
  b ∈ linkedNodeIds data a <-> a ∈ linkedNodeIds data b.
Proof.
  rewrite !elem_of_linkedNodeIds. unfold oneHop.
  split; (intros [-> | (e & He & Hends)]; [by left|]; right; exists e; tauto).
Qed.


Section moves.
Implicit Types (v : View) (event : DragEvent) (subject : GraphNode).

Lemma dragged_insert v event subject :
  view_nodes v !! ev_subject event = Some subject ->
  view_nodes (dragged event v)
  = <[ev_subject event := withPins (PinAt (ev_x event)) (PinAt (ev_y event)) subject]>
      (view_nodes v).
Proof. intros Hsubject. unfold dragged; simpl. by apply (alter_alter_pins _ _ subject). Qed.

Lemma draggedAll_snoc moves event v :
  draggedAll (moves ++ [event]) v = dragged event (draggedAll moves v).
Proof. unfold draggedAll. by rewrite foldl_app. Qed.

(** After any moves on one node, the array is the initial one with some
    pins on that node. *)
Lemma draggedAll_pins moves v i subject :
  view_nodes v !! i = Some subject ->
  Forall (fun event => ev_subject event = i) moves ->
  exists fx fy,
    view_nodes (draggedAll moves v) = <[i := withPins fx fy subject]> (view_nodes v)
    /\ view_simulation (draggedAll moves v) = view_simulation v.
Proof.
  intros Hsubject. induction moves as [|event moves IH] using rev_ind; intros Hmoves.
  - exists (node_fx subject), (node_fy subject). split; [|done].
    unfold draggedAll; simpl. symmetry. apply list_insert_id.
    rewrite Hsubject. by destruct subject.
  - apply Forall_app in Hmoves as [Hmoves [Hevent _]%Forall_cons].
    destruct (IH Hmoves) as (fx & fy & Hnodes & Hsim).
    exists (PinAt (ev_x event)), (PinAt (ev_y event)).
    rewrite draggedAll_snoc. split; [|done].
    rewrite (dragged_insert _ _ (withPins fx fy subject)).
    + by rewrite Hevent, Hnodes, list_insert_insert_eq.
    + rewrite Hevent, Hnodes. apply list_lookup_insert_eq. by eapply lookup_lt_Some.
Qed.

End moves.

(** X18.  During a drag the last pointer position wins: after any number
    of moves of one node its pins are the position of the last move, the
    rest of the node, the other nodes and the simulation are as before the
    moves; and a release after them leaves the array as a release without
    any move would. *)
Theorem last_move_wins v moves last release subject :
  view_nodes v !! ev_subject last = Some subject ->
  Forall (fun event => ev_subject event = ev_subject last) moves ->
  ev_subject release = ev_subject last ->
  view_nodes (draggedAll (moves ++ [last]) v)
  = <[ev_subject last := withPins (PinAt (ev_x last)) (PinAt (ev_y last)) subject]>
      (view_nodes v)
  /\ view_simulation (draggedAll (moves ++ [last]) v) = view_simulation v
  /\ view_nodes (dragended release (draggedAll (moves ++ [last]) v))
     = view_nodes (dragended release v).
Proof.
  intros Hsubject Hmoves Hrelease.
  destruct (draggedAll_pins moves v _ subject Hsubject Hmoves) as (fx & fy & Hnodes & Hsim).
  assert (ev_subject last < length (view_nodes v))%nat as Hlt by by eapply lookup_lt_Some.
  assert (view_nodes (draggedAll moves v) !! ev_subject last = Some (withPins fx fy subject))
    as Hmoved by (rewrite Hnodes; by apply list_lookup_insert_eq).
  assert (view_nodes (draggedAll (moves ++ [last]) v)
          = <[ev_subject last := withPins (PinAt (ev_x last)) (PinAt (ev_y last)) subject]>
              (view_nodes v)) as Hlast.
  { rewrite draggedAll_snoc, (dragged_insert _ _ _ Hmoved), Hnodes.
    by rewrite list_insert_insert_eq. }
  split_and!.
  - done.
  - by rewrite draggedAll_snoc.
  - unfold dragended; simpl. rewrite Hrelease.
    rewrite (alter_alter_pins _ _
               (withPins (PinAt (ev_x last)) (PinAt (ev_y last)) subject)
               _ _ (withPins PinNull PinNull subject));
      [|rewrite Hlast; by apply list_lookup_insert_eq|done].
    rewrite (alter_alter_pins (view_nodes v) _ subject
               _ _ (withPins PinNull PinNull subject)) by done.
    by rewrite Hlast, list_insert_insert_eq.
Qed.

Lemma last_move_wins_witness :
  view_nodes (draggedAll [dragStart; dragMove] viewAB)
  = [withPins (PinAt 10) (PinAt 20) nodeA; nodeB].
Proof.
  destruct (last_move_wins viewAB [dragStart] dragMove dragEnd nodeA) as (Hnodes & _).
  - reflexivity.
  - by repeat constructor.
  - reflexivity.
  - exact Hnodes.
Defined.
